(** * emcee3: the ensemble update protocol, the moves and the backends

    A shallow embedding of the parts of emcee3 that the specification makes
    claims about, with the claims settled as theorems.

    Conventions.
    - [np.float64] is the kernel's binary64 type [float]; [np.inf], [-np.inf]
      and NaN are [infinity], [neg_infinity] and [nan], and [np.isfinite] is
      [is_finite].
    - A one-dimensional array is a [list float], a two-dimensional one a list
      of rows.  Arrays updated by index use stdpp's lookup and insert, with
      the out-of-range cases of numpy written out.
    - A [RandomState] is the sequence of uniform draws its seed determines
      together with a cursor, threaded through the code that draws.
    - numpy routines that are not kernel primitives ([np.log], [np.exp],
      [random.choice]) and the user's callbacks (the model, the walker, the
      proposal function) are section variables.
    - Python exceptions are the [Error] constructor of [result].
    - The definitions come first, file by file; the theorems follow. *)

From Stdlib Require Import Floats ZArith Bool Lia String.
From stdpp Require Import base option list gmap strings.

Set Default Proof Using "Type".
Set Warnings "-inexact-float".

(** ** Shared numerics *)

Abbreviation vec := (list float).
Abbreviation matrix := (list (list float)).

Module Numeric.
Local Open Scope float_scope.

(** [np.isfinite] on a scalar. *)
Definition isfinite (x : float) : bool := is_finite x.

(** [np.all(np.isfinite(a))] on a one-dimensional array. *)
Definition all_finite (a : vec) : bool := forallb isfinite a.

(** [np.all(np.isfinite(m))] on a two-dimensional array. *)
Definition all_finite2 (m : matrix) : bool := forallb all_finite m.

(** Elementwise arithmetic of equal-length arrays. *)
Definition vadd (a b : vec) : vec := zip_with PrimFloat.add a b.
Definition vsub (a b : vec) : vec := zip_with PrimFloat.sub a b.
Definition vmul (a b : vec) : vec := zip_with PrimFloat.mul a b.

(** A scalar times an array, an array divided by a scalar, negation. *)
Definition smul (c : float) (a : vec) : vec := map (fun x => c * x) a.
Definition vscale (a : vec) (c : float) : vec := map (fun x => x * c) a.
Definition vdivs (a : vec) (c : float) : vec := map (fun x => x / c) a.
Definition vneg (a : vec) : vec := map PrimFloat.opp a.

(** [np.dot] of two one-dimensional arrays, accumulated left to right. *)
Definition dot (a b : vec) : float :=
  foldl PrimFloat.add 0 (vmul a b).

(** [np.linalg.norm] of a one-dimensional array. *)
Definition norm (a : vec) : float := sqrt (dot a a).

(** [np.zeros(n)]. *)
Definition zeros (n : nat) : vec := replicate n 0.
End Numeric.

(** ** Exceptions *)

(** The exceptions of the modelled code, with their messages; [Upstream] is
    whatever a user callback raises. *)
Inductive exn : Type :=
  | ValueError (msg : string)
  | RuntimeError (msg : string)
  | IndexError
  | NameError
  | TypeError (msg : string)
  | Upstream (msg : string).

Inductive result (A : Type) : Type :=
  | Ok (a : A)
  | Error (e : exn).
Arguments Ok {A} a.
Arguments Error {A} e.

Definition bind {A B : Type} (r : result A) (k : A -> result B) : result B :=
  match r with
  | Ok a => k a
  | Error e => Error e
  end.

Notation "'do' x <- r ; k" := (bind r (fun x => k))
  (at level 10, x name, r at level 100, k at level 200).
Notation "'do' ' p <- r ; k" := (bind r (fun x => let 'p := x in k))
  (at level 10, p pattern, r at level 100, k at level 200).

(** [list(pool.map(f, xs))]: the results in input order; an exception of any
    call aborts the batch. *)
Fixpoint pool_map {A B : Type} (f : A -> result B) (xs : list A)
  : result (list B) :=
  match xs with
  | [] => Ok []
  | x :: xs' =>
      do y <- f x;
      do ys <- pool_map f xs';
      Ok (y :: ys)
  end.

(** [for i, a in enumerate(l): s = body i a s], from index [i]. *)
Fixpoint for_enumerate {A St : Type} (body : nat -> A -> St -> result St)
    (i : nat) (l : list A) (s : St) : result St :=
  match l with
  | [] => Ok s
  | a :: l' =>
      do s' <- body i a s;
      for_enumerate body (S i) l' s'
  end.

(** [a[i] = x] on an array: an index past the end raises. *)
Definition setitem {A : Type} (a : list A) (i : nat) (x : A)
  : result (list A) :=
  if (i <? length a)%nat then Ok (<[i := x]> a) else Error IndexError.

(** ** numgrad.py *)

Module Numgrad.
Import Numeric.
Local Open Scope float_scope.

Section Wrapper.
(** The wrapped function reads the array it is given; [eps] is the
    step size (default [1.234e-7]). *)
Variable f : vec -> float.
Variable eps : float.

(** One iteration of the loop of [numerical_gradient_1.__call__] on the
    pair (x, g): [v] is the entry the enumeration yields at index [i]. *)
Definition step_1 (y0 : float) (st : vec * vec) (i : nat) : vec * vec :=
  let '(x, g) := st in
  match x !! i with
  | None => st
  | Some v =>
      let x := <[i := v + eps]> x in
      let y := f x in
      let g := <[i := (y - y0) / eps]> g in
      let x := <[i := v]> x in
      (x, g)
  end.

(** [numerical_gradient_1.__call__]: the array [x] as the caller sees it
    on return, and the returned gradient. *)
Definition numerical_gradient_1 (x : vec) : vec * vec :=
  let y0 := f x in
  let g := zeros (length x) in
  foldl (step_1 y0) (x, g) (seq 0 (length x)).

(** One iteration of the loop of [numerical_gradient_2.__call__]. *)
Definition step_2 (st : vec * vec) (i : nat) : vec * vec :=
  let '(x, g) := st in
  match x !! i with
  | None => st
  | Some v =>
      let x := <[i := v + eps]> x in
      let yp := f x in
      let x := <[i := v - eps]> x in
      let ym := f x in
      let g := <[i := 0.5 * (yp - ym) / eps]> g in
      let x := <[i := v]> x in
      (x, g)
  end.

(** [numerical_gradient_2.__call__]. *)
Definition numerical_gradient_2 (x : vec) : vec * vec :=
  let g := zeros (length x) in
  foldl step_2 (x, g) (seq 0 (length x)).
End Wrapper.

Definition default_eps : float := 1.234e-7.
End Numgrad.

(** ** ensemble.py *)

(** What a walker object exposes to the ensemble. *)
Module Walker.
Record t : Type := {
  coords : vec;
  lnprior : float;
  lnlike : float
}.
End Walker.

Module Ensemble.
Import Numeric.

(** The attributes of an [Ensemble] that [__init__] and [update] touch
    ([pool] and [random] are handles, not data). *)
Record t : Type := {
  nwalkers : nat;
  ndim : nat;
  walkers : list Walker.t;
  _coords : matrix;
  _lnprior : vec;
  _lnlike : vec;
  acceptance : list bool
}.

(** The argument [coords] as [np.atleast_1d] finds it: a sequence of
    rows, or an array without rows that has a second axis of length [d],
    of shape [(0, d)].  [Rows []] is the empty sequence, of shape
    [(0,)]. *)
Inductive array_like : Type :=
  | Rows (c : matrix)
  | NoRows (d : nat).

(** The rows of the array, in order. *)
Definition rows_of (a : array_like) : matrix :=
  match a with
  | Rows c => c
  | NoRows _ => []
  end.

(** The shape of [np.atleast_1d(coords)] when it has exactly two axes:
    rows of one length, or no rows and a second axis. *)
Definition shape2 (a : array_like) : option (nat * nat) :=
  match a with
  | NoRows d => Some (0, d)
  | Rows [] => None
  | Rows (r :: rs) =>
      if forallb (fun r' => (length r' =? length r)%nat) rs
      then Some (length (r :: rs), length r)
      else None
  end.

(** [a[i, :] = c]: the row is replaced; a one-element [c] is broadcast
    along the row and any other length mismatch raises. *)
Definition setrow (a : matrix) (nd i : nat) (c : vec) : result matrix :=
  if (i <? length a)%nat then
    if (length c =? nd)%nat then Ok (<[i := c]> a)
    else match c with
         | [c0] => Ok (<[i := replicate nd c0]> a)
         | _ => Error (ValueError "could not broadcast input array")
         end
  else Error IndexError.

(** The finiteness test of [__init__]. *)
Definition check_initial (lp ll : vec) : bool :=
  all_finite lp && all_finite ll.

(** The finiteness test of [update]. *)
Definition check_update (c : matrix) (lp ll : vec) : bool :=
  all_finite2 c && all_finite lp && all_finite ll.

Section Init.
(** [walker.propose], called on each coordinate row through the pool. *)
Variable propose : vec -> result Walker.t.
(** What [np.empty] leaves at each index. *)
Variable uninit : nat -> float.

Definition empty (n : nat) : vec := map uninit (seq 0 n).

(** The body of the loop that saves the initial probabilities. *)
Definition save_initial (i : nat) (w : Walker.t) (st : vec * vec)
  : result (vec * vec) :=
  let '(lp, ll) := st in
  do lp <- setitem lp i (Walker.lnprior w);
  do ll <- setitem ll i (Walker.lnlike w);
  Ok (lp, ll).

(** [Ensemble.__init__(walker, coords)]. *)
Definition __init__ (coords : array_like) : result t :=
  match shape2 coords with
  | None => Error (ValueError "Invalid ensemble coordinate dimensions")
  | Some (n, d) =>
      do ws <- pool_map propose (rows_of coords);
      do st <- for_enumerate save_initial 0 ws (empty n, empty n);
      let '(lp, ll) := st in
      let e := {| nwalkers := n; ndim := d; walkers := ws;
                  _coords := rows_of coords; _lnprior := lp; _lnlike := ll;
                  acceptance := replicate n true |} in
      if check_initial lp ll then Ok e
      else Error (ValueError "Invalid (un-allowed) initial coordinates")
  end.
End Init.

(** The body of the copying loop of [update]. *)
Definition copy_walker (nd : nat) (i : nat) (w : Walker.t)
    (st : matrix * vec * vec) : result (matrix * vec * vec) :=
  let '(c, lp, ll) := st in
  do c <- setrow c nd i (Walker.coords w);
  do lp <- setitem lp i (Walker.lnprior w);
  do ll <- setitem ll i (Walker.lnlike w);
  Ok (c, lp, ll).

(** [Ensemble.update()]: the ensemble after the call, or the exception. *)
Definition update (e : t) : result t :=
  do st <- for_enumerate (copy_walker (ndim e)) 0 (walkers e)
             (_coords e, _lnprior e, _lnlike e);
  let '(c, lp, ll) := st in
  let e' := {| nwalkers := nwalkers e; ndim := ndim e;
               walkers := walkers e;
               _coords := c; _lnprior := lp; _lnlike := ll;
               acceptance := acceptance e |} in
  if check_update c lp ll then Ok e'
  else Error (RuntimeError "An invalid proposal was accepted").

(** The shapes [__init__] establishes: one array entry per walker and
    [ndim] coordinates per walker. *)
Definition wf (e : t) : Prop :=
  length (walkers e) = nwalkers e /\
  length (_coords e) = nwalkers e /\
  length (_lnprior e) = nwalkers e /\
  length (_lnlike e) = nwalkers e /\
  Forall (fun w => length (Walker.coords w) = ndim e) (walkers e).

(** A walker all of whose values are finite. *)
Definition walker_finite (w : Walker.t) : bool :=
  all_finite (Walker.coords w) &&
  isfinite (Walker.lnprior w) && isfinite (Walker.lnlike w).

(** A walker whose probabilities are finite. *)
Definition walker_feasible (w : Walker.t) : bool :=
  isfinite (Walker.lnprior w) && isfinite (Walker.lnlike w).
End Ensemble.

(** ** The random stream *)

Module Random.
Local Open Scope float_scope.

(** A [numpy.random.RandomState]: the sequence of uniform doubles of
    [0, 1) that its seed determines, and how many of them were consumed. *)
Record RandomState : Type := {
  draws : nat -> float;
  pos : nat
}.

(** [random.rand()]. *)
Definition rand (rs : RandomState) : float * RandomState :=
  (draws rs (pos rs), {| draws := draws rs; pos := S (pos rs) |}).

(** [random.uniform(low, high)]. *)
Definition uniform (low high : float) (rs : RandomState)
  : float * RandomState :=
  let '(x, rs) := rand rs in
  (low + (high - low) * x, rs).

(** The stream that starts with the numbers of [l] and goes on with
    [0.5]. *)
Definition seeded (l : vec) : RandomState :=
  {| draws := fun k => nth k l 0.5; pos := 0 |}.
End Random.

(** [float(n)] of a Python integer. *)
Definition float_of_Z (n : Z) : float :=
  SF2Prim (SpecFloat.binary_normalize prec emax n 0 false).

(** ** moves/hmc.py *)

Module HMC.
Import Numeric Random.
Local Open Scope float_scope.

(** The state objects of hmc.py: [grad_lnprob] is an attribute that a
    state may lack. *)
Module State.
Record t : Type := {
  coords : vec;
  lnprob : float;
  grad_lnprob : option vec;
  accepted : bool
}.

Definition set_accepted (b : bool) (s : t) : t :=
  {| coords := coords s; lnprob := lnprob s;
     grad_lnprob := grad_lnprob s; accepted := b |}.

(** [s.grad_lnprob] on a state that carries the attribute. *)
Definition grad (s : t) : vec := default [] (grad_lnprob s).
End State.

(** [np.asarray(cov)] for a [cov] that is a number or a one-dimensional
    array. *)
Inductive cov_array : Type :=
  | Zero_d (c : float)
  | One_d (c : vec).

(** The objects [_hmc_wrapper.__init__] makes of [cov]. *)
Inductive metric : Type :=
  | _hmc_vector (cov : cov_array)
  | _hmc_matrix (cov : matrix).

(** [cov.apply(x)]: [cov * x], or [np.dot(cov, x)] for a matrix. *)
Definition apply (m : metric) (x : vec) : vec :=
  match m with
  | _hmc_vector (Zero_d c) => smul c x
  | _hmc_vector (One_d c) => vmul c x
  | _hmc_matrix c => map (fun row => dot row x) c
  end.

Section Wrapper.
(** The model is a parameter: [get_state(q, compute_grad=True)] is a
    function of the coordinates and returns the state there with its
    gradient. *)
Variable log_prob : vec -> float.
Variable grad_log_prob : vec -> vec.
(** The attributes of the [_hmc_wrapper]. *)
Variable cov : metric.
Variable epsilon : float.
Variable nsteps : Z.

(** Modelled from the spec: [model.get_state(q, compute_grad=True)] of the
    model adapter, which is not among the sources: a pure function of the
    coordinates that returns the state there with its log-probability and
    gradient. *)
Definition get_state (q : vec) : State.t :=
  {| State.coords := q; State.lnprob := log_prob q;
     State.grad_lnprob := Some (grad_log_prob q);
     State.accepted := false |}.

(** The body of the loop over [xrange(nsteps)], on the pair (q, p). *)
Definition leap (qp : vec * vec) (i : nat) : vec * vec :=
  let '(q, p) := qp in
  let q := vadd q (smul epsilon (apply cov p)) in
  if (Z.of_nat i <? nsteps - 1)%Z then
    let state := get_state q in
    (q, vadd p (smul epsilon (State.grad state)))
  else (q, p).

(** [_hmc_wrapper.__call__] up to and including the momentum flip:
    the state at the end of the trajectory and the final momentum. *)
Definition integrate (current_state : State.t) (current_p : vec)
  : State.t * vec :=
  let current_q := State.coords current_state in
  let q := current_q in
  let p := current_p in
  let current_state :=
    match State.grad_lnprob current_state with
    | Some _ => current_state
    | None => get_state q
    end in
  let p := vadd p (smul (0.5 * epsilon) (State.grad current_state)) in
  let '(q, p) := foldl leap (q, p) (seq 0 (Z.to_nat nsteps)) in
  let state := get_state q in
  let p := vadd p (smul (0.5 * epsilon) (State.grad state)) in
  let p := vneg p in
  (state, p).

(** [_hmc_wrapper.__call__]: the proposed state and the acceptance
    factor. *)
Definition __call__ (current_state : State.t) (current_p : vec)
  : State.t * float :=
  let '(state, p) := integrate current_state current_p in
  let state := State.set_accepted false state in
  if negb (isfinite (State.lnprob state)) then (state, 0)
  else
    let factor := 0.5 * dot current_p (apply cov current_p) in
    let factor := factor - 0.5 * dot p (apply cov p) in
    (state, factor).
End Wrapper.

Section Update.
(** [np.log]. *)
Variable ln : float -> float.

(** One turn of the loop of [HamiltonianMove.update] over the results
    of the integrator: [old] is [ensemble.walkers[j]]. *)
Definition accept (old : State.t) (res : State.t * float)
    (rs : RandomState) : State.t * RandomState :=
  let '(state, factor) := res in
  let lnpdiff := factor + State.lnprob state - State.lnprob old in
  let '(r, rs) := rand rs in
  if ln r <? lnpdiff then (State.set_accepted true state, rs)
  else (state, rs).

(** The whole loop: the list [states] that is handed to
    [ensemble.update]. *)
Fixpoint accept_all (olds : list State.t) (res : list (State.t * float))
    (rs : RandomState) : list State.t * RandomState :=
  match olds, res with
  | old :: olds', r :: res' =>
      let '(state, rs) := accept old r rs in
      let '(states, rs) := accept_all olds' res' rs in
      (state :: states, rs)
  | _, _ => ([], rs)
  end.
End Update.

(** The leapfrog scheme in the words of the specification: a half step in
    momentum with the gradient at the start, then [L] position steps
    alternating with full momentum steps at each new position, the
    momentum step after the last position step being the closing half
    step, and the momentum flipped. *)
Section Scheme.
Variable grad_log_prob : vec -> vec.
Variable cov : metric.
Variable epsilon : float.

Definition position_step (q p : vec) : vec :=
  vadd q (smul epsilon (apply cov p)).

Definition momentum_step (h : float) (q p : vec) : vec :=
  vadd p (smul h (grad_log_prob q)).

Fixpoint alternate (L : nat) (q p : vec) : vec * vec :=
  match L with
  | O => (q, p)
  | S L' =>
      let q := position_step q p in
      match L' with
      | O => (q, p)
      | S _ => alternate L' q (momentum_step epsilon q p)
      end
  end.

Definition leapfrog_scheme (L : nat) (q0 g0 p0 : vec) : vec * vec :=
  let p := vadd p0 (smul (0.5 * epsilon) g0) in
  let '(q, p) := alternate L q0 p in
  let p := momentum_step (0.5 * epsilon) q p in
  (q, vneg p).

(** The gradient at the current position: the one the current state
    carries, or the model's. *)
Definition initial_gradient (s : State.t) : vec :=
  match State.grad_lnprob s with
  | Some g => g
  | None => grad_log_prob (State.coords s)
  end.
End Scheme.
End HMC.

(** ** moves/nuts.py *)

Module NUTS.
Import Numeric Random.
Local Open Scope float_scope.

(** The state objects of nuts.py, with the momentum the move attaches. *)
Module State.
Record t : Type := {
  coords : vec;
  log_probability : float;
  grad_log_probability : vec;
  _momentum : vec;
  accepted : bool;
  _nuts_steps : option nat
}.

Definition set_momentum (p : vec) (s : t) : t :=
  {| coords := coords s; log_probability := log_probability s;
     grad_log_probability := grad_log_probability s;
     _momentum := p; accepted := accepted s;
     _nuts_steps := _nuts_steps s |}.

Definition set_accepted (b : bool) (s : t) : t :=
  {| coords := coords s; log_probability := log_probability s;
     grad_log_probability := grad_log_probability s;
     _momentum := _momentum s; accepted := b;
     _nuts_steps := _nuts_steps s |}.

Definition set_nuts_steps (j : nat) (s : t) : t :=
  {| coords := coords s; log_probability := log_probability s;
     grad_log_probability := grad_log_probability s;
     _momentum := _momentum s; accepted := accepted s;
     _nuts_steps := Some j |}.
End State.

(** The tuple [build_tree] returns, with the random stream after it. *)
Record tree : Type := {
  state_m : State.t;
  state_p : State.t;
  state_pr : State.t;
  n_pr : Z;
  s_pr : bool;
  stream : RandomState
}.

(** The variables of the loop of [__call__]. *)
Record trajectory : Type := {
  state : State.t;
  state_minus : State.t;
  state_plus : State.t;
  n : Z;
  random : RandomState
}.

Section Wrapper.
(** The model is a parameter: its log-probability and gradient as
    functions of the coordinates.  [compute_grad_log_probability] and
    [compute_log_probability] fill these in on the state they are given
    and return it. *)
Variable log_prob : vec -> float.
Variable grad_log_prob : vec -> vec.
(** [np.log] and [np.exp]. *)
Variable ln : float -> float.
Variable exp : float -> float.
(** The attributes of the [_nuts_wrapper]. *)
Variable cov : HMC.metric.
Variable epsilon : float.
Variable max_depth : nat.
Variable delta_max : float.

(** Modelled from the spec: [model.compute_grad_log_probability(state)]
    of the model adapter, which is not among the sources: it evaluates the
    log-probability and the gradient at the coordinates of the state it is
    given, stores them on that state and returns it. *)
Definition compute_grad_log_probability (s : State.t) : State.t :=
  {| State.coords := State.coords s;
     State.log_probability := log_prob (State.coords s);
     State.grad_log_probability := grad_log_prob (State.coords s);
     State._momentum := State._momentum s;
     State.accepted := State.accepted s;
     State._nuts_steps := State._nuts_steps s |}.

(** Modelled from the spec: [model.compute_log_probability(state)], as
    above without the gradient. *)
Definition compute_log_probability (s : State.t) : State.t :=
  {| State.coords := State.coords s;
     State.log_probability := log_prob (State.coords s);
     State.grad_log_probability := State.grad_log_probability s;
     State._momentum := State._momentum s;
     State.accepted := State.accepted s;
     State._nuts_steps := State._nuts_steps s |}.

(** Modelled from the spec: [State(q)] of state.py, which is not among
    the sources: a fresh state at [q], infeasible until evaluated, not
    accepted, nothing attached. *)
Definition new_state (q : vec) : State.t :=
  {| State.coords := q; State.log_probability := neg_infinity;
     State.grad_log_probability := []; State._momentum := [];
     State.accepted := false; State._nuts_steps := None |}.

(** [_nuts_wrapper.leapfrog]. *)
Definition leapfrog (state : State.t) (epsilon : float) : State.t :=
  let p := vadd (State._momentum state)
             (smul (0.5 * epsilon) (State.grad_log_probability state)) in
  let q := vadd (State.coords state) (smul epsilon (HMC.apply cov p)) in
  let state := compute_grad_log_probability (new_state q) in
  State.set_momentum
    (vadd p (smul (0.5 * epsilon) (State.grad_log_probability state)))
    state.

(** [_nuts_wrapper.build_tree(state, u, v, j)]. *)
Fixpoint build_tree (j : nat) (state : State.t) (u v : float)
    (rs : RandomState) : tree :=
  match j with
  | O =>
      let state_pr := leapfrog state (v * epsilon) in
      let K_pr := dot (State._momentum state_pr)
                      (HMC.apply cov (State._momentum state_pr)) in
      let log_prob_pr := State.log_probability state - 0.5 * K_pr in
      let n_pr := if ln u <? log_prob_pr then 1%Z else 0%Z in
      let s_pr := ln u - delta_max <? log_prob_pr in
      {| state_m := state_pr; state_p := state_pr; state_pr := state_pr;
         n_pr := n_pr; s_pr := s_pr; stream := rs |}
  | S j' =>
      let t1 := build_tree j' state u v rs in
      if s_pr t1 then
        let t2 :=
          if v <? 0
          then build_tree j' (state_m t1) u v (stream t1)
          else build_tree j' (state_p t1) u v (stream t1) in
        let state_m := if v <? 0 then state_m t2 else state_m t1 in
        let state_p := if v <? 0 then state_p t1 else state_p t2 in
        let '(state_pr, rs) :=
          if (0 <? n_pr t2)%Z then
            let '(r, rs) := rand (stream t2) in
            if r <? float_of_Z (n_pr t2) / float_of_Z (n_pr t1 + n_pr t2)
            then (state_pr t2, rs)
            else (state_pr t1, rs)
          else (state_pr t1, stream t2) in
        let n_pr := (n_pr t1 + n_pr t2)%Z in
        let delta := vsub (State.coords state_p) (State.coords state_m) in
        let s_pr :=
          s_pr t2 &&
          ((0 <=? dot delta (State._momentum state_m)) &&
           (0 <=? dot delta (State._momentum state_p))) in
        {| state_m := state_m; state_p := state_p; state_pr := state_pr;
           n_pr := n_pr; s_pr := s_pr; stream := rs |}
      else t1
  end.

(** [v = 1.0 - 2.0 * (random.rand() < 0.5)]. *)
Definition direction (r : float) : float :=
  1 - 2 * (if r <? 0.5 then 1 else 0).

(** The subtree the loop of [__call__] builds at depth [j] once the
    direction [v] is drawn. *)
Definition extend (j : nat) (u v : float) (t : trajectory)
    (rs : RandomState) : tree :=
  if v <? 0
  then build_tree j (state_minus t) u v rs
  else build_tree j (state_minus t) u v rs.

(** One turn of the loop of [__call__]: the variables after it and
    whether the loop is left. *)
Definition doubling (j : nat) (u : float) (t : trajectory)
  : trajectory * bool :=
  let '(r, rs) := rand (random t) in
  let v := direction r in
  let sub := extend j u v t rs in
  let state_minus := if v <? 0 then state_m sub else state_minus t in
  let state_plus := if v <? 0 then state_plus t else state_p sub in
  let s := s_pr sub in
  let '(state, rs) :=
    if s then
      let '(r, rs) := rand (stream sub) in
      if r <? float_of_Z (n_pr sub) / float_of_Z (n t)
      then (State.set_accepted true (state_pr sub), rs)
      else (state t, rs)
    else (state t, stream sub) in
  let n := (n t + n_pr sub)%Z in
  let delta :=
    vsub (State.coords state_plus) (State.coords state_minus) in
  let stop :=
    negb s || (dot delta (State._momentum state_minus) <? 0)
           || (dot delta (State._momentum state_plus) <? 0) in
  ({| state := state; state_minus := state_minus;
      state_plus := state_plus; n := n; random := rs |}, stop).

(** [for j in range(from, max_depth)] with its [break]: the variables
    at the exit and the last value of [j]. *)
Fixpoint doublings (fuel j : nat) (u : float) (t : trajectory)
  : trajectory * nat :=
  match fuel with
  | O => (t, j)
  | S fuel' =>
      let '(t', stop) := doubling j u t in
      if stop then (t', j)
      else match fuel' with
           | O => (t', j)
           | S _ => doublings fuel' (S j) u t'
           end
  end.

(** [_nuts_wrapper.__call__]: the returned state and factor, and the
    random stream afterwards.  With [max_depth = 0] the loop variable
    is unbound at the end and the call raises [NameError]. *)
Definition __call__ (state : State.t) (current_p : vec)
    (rs : RandomState) : result (State.t * float * RandomState) :=
  let state := compute_grad_log_probability state in
  let state := State.set_momentum current_p state in
  let f := State.log_probability state in
  let f := f - 0.5 * dot current_p (HMC.apply cov current_p) in
  let '(u, rs) := uniform 0 (exp f) rs in
  match max_depth with
  | O => Error NameError
  | S _ =>
      let '(t, j) :=
        doublings max_depth 0 u
          {| state := state; state_minus := state; state_plus := state;
             n := 1; random := rs |} in
      let state := compute_log_probability (NUTS.state t) in
      let state := State.set_nuts_steps j state in
      Ok (state, neg_infinity, random t)
  end.
End Wrapper.

(** The replacement rule of the loop of [__call__] in the words of the
    specification: with probability [n_pr / (n + n_pr)]. *)
Definition replaces_as_specified (s : bool) (n_pr n : Z) (r : float)
  : bool :=
  s && (r <? float_of_Z n_pr / float_of_Z (n + n_pr)).

(** The rule the loop applies. *)
Definition replaces (s : bool) (n_pr n : Z) (r : float) : bool :=
  s && (r <? float_of_Z n_pr / float_of_Z n).

(** The edge the specification starts the new subtree from. *)
Definition edge_as_specified (v : float) (t : trajectory) : State.t :=
  if v <? 0 then state_minus t else state_plus t.

(** The returned state as [HamiltonianMove.update], which the move
    inherits, reads it: [lnprob] is its log-probability. *)
Definition as_hmc_state (s : State.t) : HMC.State.t :=
  {| HMC.State.coords := State.coords s;
     HMC.State.lnprob := State.log_probability s;
     HMC.State.grad_lnprob := Some (State.grad_log_probability s);
     HMC.State.accepted := State.accepted s |}.
End NUTS.

(** ** moves/mh.py *)

Module MH.
Import Numeric Random.
Local Open Scope float_scope.

(** The state objects of mh.py. *)
Module State.
Record t : Type := {
  coords : vec;
  log_probability : float;
  accepted : bool
}.

Definition set_accepted (b : bool) (s : t) : t :=
  {| coords := coords s; log_probability := log_probability s;
     accepted := b |}.
End State.

(** What [MHMove.update] uses of the ensemble it is given. *)
Class EnsembleLike (E : Type) : Type := {
  ens_ndim : E -> nat;
  ens_coords : E -> matrix;
  ens_walkers : E -> list State.t;
  ens_propose : E -> matrix -> result (list State.t);
  ens_update : E -> list State.t -> result E
}.

(** The calls a move makes on the ensemble, in order. *)
Inductive call : Type :=
  | Propose (q : matrix)
  | Update (states : list State.t).

Section Move.
Context {E : Type} `{EnsembleLike E}.
(** [np.exp]. *)
Variable exp : float -> float.
(** The attributes of the move: [ndim] may be [None]. *)
Variable ndim : option nat.
Variable proposal :
  RandomState -> matrix -> matrix * vec * RandomState.

(** The test of the loop: the draw is made only when [lnpdiff > 0.0]
    fails. *)
Definition accepts (lnpdiff : float) (rs : RandomState)
  : bool * RandomState :=
  if 0 <? lnpdiff then (true, rs)
  else let '(r, rs) := rand rs in (r <? exp lnpdiff, rs).

(** The loop over [enumerate(states)], from index [i]: the states with
    their flags set, and the stream afterwards. *)
Fixpoint accept_loop (i : nat) (states walkers : list State.t)
    (factor : vec) (rs : RandomState)
  : result (list State.t * RandomState) :=
  match states with
  | [] => Ok ([], rs)
  | state :: states' =>
      match walkers !! i, factor !! i with
      | Some w, Some f =>
          let lnpdiff :=
            State.log_probability state - State.log_probability w + f in
          let '(yes, rs) := accepts lnpdiff rs in
          let state :=
            if yes then State.set_accepted true state else state in
          do ' (rest, rs) <- accept_loop (S i) states' walkers factor rs;
          Ok (state :: rest, rs)
      | _, _ => Error IndexError
      end
  end.

(** The dimension check at the head of [update]. *)
Definition dimension_mismatch (nd : nat) : bool :=
  match ndim with
  | Some d => negb (d =? nd)%nat
  | None => false
  end.

(** [MHMove.update]: the calls made on the ensemble, and the ensemble
    and stream returned or the exception. *)
Definition update (ensemble : E) (rs : RandomState)
  : list call * result (E * RandomState) :=
  if dimension_mismatch (ens_ndim ensemble)
  then ([], Error (ValueError "Dimension mismatch in proposal"))
  else
    let '(q, factor, rs) := proposal rs (ens_coords ensemble) in
    match ens_propose ensemble q with
    | Error e => ([Propose q], Error e)
    | Ok states =>
        match accept_loop 0 states (ens_walkers ensemble) factor rs with
        | Error e => ([Propose q], Error e)
        | Ok (states, rs) =>
            ([Propose q; Update states],
             do ensemble <- ens_update ensemble states;
             Ok (ensemble, rs))
        end
    end.

(** A proposed state once its walker is decided: it is accepted when
    the decision says so, and stays accepted if it came so; its
    coordinates and log-probability are the proposed ones. *)
Definition mark (yes : bool) (state : State.t) : State.t :=
  {| State.coords := State.coords state;
     State.log_probability := State.log_probability state;
     State.accepted := yes || State.accepted state |}.

(** The sum of the specification for a proposed state, the walker it
    would replace and its log-ratio, its terms in the order in which
    mh.py adds them up. *)
Definition log_ratio_sum (row : State.t * State.t * float) : float :=
  State.log_probability (fst (fst row))
  - State.log_probability (snd (fst row)) + snd row.

(** The acceptance rule in the words of the specification, for one
    walker and the uniform [u] drawn for it: the sum is positive, or [u]
    falls below its exponential. *)
Definition rule_as_specified (sum u : float) : bool :=
  (0 <? sum) || (u <? exp sum).

(** The uniforms drawn for the walkers of [rows]: one for each whose sum
    is not positive. *)
Fixpoint uniforms (rows : list (State.t * State.t * float)) : nat :=
  match rows with
  | [] => 0%nat
  | row :: rows' =>
      if 0 <? log_ratio_sum row then uniforms rows'
      else S (uniforms rows')
  end.

(** The decisions in the words of the specification for the walkers in
    order, from the numbers of the stream [rs]: the uniform of the walker
    [i] is fresh, the first number that none of the walkers before it
    has drawn.  With them the stream after the last draw. *)
Definition accept_as_specified (rows : list (State.t * State.t * float))
    (rs : RandomState) : list bool * RandomState :=
  (imap (fun i row =>
           rule_as_specified (log_ratio_sum row)
             (draws rs (pos rs + uniforms (take i rows))%nat))
        rows,
   {| draws := draws rs; pos := (pos rs + uniforms rows)%nat |}).
End Move.
End MH.

(** ** moves/de_snooker.py *)

Module DESnooker.
Import Numeric Random.
Local Open Scope float_scope.

(** [DESnookerMove.__init__(gammas=1.7)]: the attribute [gammas]. *)
Definition __init__ (gammas : option float) : float :=
  default 1.7 gammas.

Section Move.
(** [np.log]. *)
Variable ln : float -> float.
(** [random.choice(n, k, replace=False)]: numpy's routine is a
    parameter. *)
Variable choice :
  nat -> nat -> RandomState -> result (list nat * RandomState).
(** What [np.empty] leaves in a row of [q] and in an entry of
    [metropolis]. *)
Variable uninit_row : nat -> vec.
Variable uninit : nat -> float.
(** The attribute [gammas] of the move and [ens.ndim]. *)
Variable gammas : float.
Variable ndim : nat.

(** The candidate for the walker [si] and its row of [c]-members. *)
Definition candidate (si z z1 z2 : vec) : vec :=
  let delta := vsub si z in
  let norm := Numeric.norm delta in
  let u := vdivs delta (sqrt norm) in
  vadd si (vscale (vscale u gammas) (dot u z1 - dot u z2)).

(** The body of the loop over [range(Ns)]. *)
Definition step (c : matrix) (i : nat) (si : vec)
    (st : matrix * vec * RandomState)
  : result (matrix * vec * RandomState) :=
  let '(q, metropolis, rs) := st in
  do ' (inds, rs) <- choice (length c) 3 rs;
  match inds with
  | [k; k1; k2] =>
      match c !! k, c !! k1, c !! k2 with
      | Some z, Some z1, Some z2 =>
          let delta := vsub si z in
          let norm := Numeric.norm delta in
          do q <- Ensemble.setrow q ndim i (candidate si z z1 z2);
          let qi := default [] (q !! i) in
          do metropolis <-
            setitem metropolis i
              (ln (Numeric.norm (vsub qi z)) - ln norm);
          Ok (q, metropolis, rs)
      | _, _, _ => Error IndexError
      end
  | _ => Error (ValueError "not enough values to unpack")
  end.

(** [DESnookerMove.get_proposal(ens, s, c)]: the candidates, the
    log-ratios and the stream afterwards. *)
Definition get_proposal (s c : matrix) (rs : RandomState)
  : result (matrix * vec * RandomState) :=
  let Ns := length s in
  let q := map uninit_row (seq 0 Ns) in
  let metropolis := map uninit (seq 0 Ns) in
  do ' (q, metropolis, rs) <- for_enumerate (step c) 0 s (q, metropolis, rs);
  Ok (q, smul (0.5 * (float_of_Z (Z.of_nat ndim) - 1)) metropolis, rs).

(** The log-ratio in the words of the specification. *)
Definition log_ratio_as_specified (si z q : vec) : float :=
  0.5 * (float_of_Z (Z.of_nat ndim) - 1) *
  (ln (Numeric.norm (vsub q z)) - ln (Numeric.norm (vsub si z))).

(** The unscaled log-ratio the loop stores. *)
Definition log_norm_difference (si z q : vec) : float :=
  ln (Numeric.norm (vsub q z)) - ln (Numeric.norm (vsub si z)).

(** The candidate [q] for the walker [si] in the words of the
    specification: made from three different members of [c], the first
    of them [z]. *)
Definition drawn_as_specified (c : matrix) (si q z : vec) : Prop :=
  exists (k k1 k2 : nat) (z1 z2 : vec),
    k <> k1 /\ k <> k2 /\ k1 <> k2 /\
    c !! k = Some z /\ c !! k1 = Some z1 /\ c !! k2 = Some z2 /\
    q = candidate si z z1 z2.
End Move.

(** What [choice(n, 3, replace=False)] promises: with at least three
    members to choose from it returns three different indices below
    [n]. *)
Definition draws_without_replacement
    (choice : nat -> nat -> RandomState -> result (list nat * RandomState))
  : Prop :=
  forall (n : nat) (rs : RandomState), (3 <= n)%nat ->
    exists (k k1 k2 : nat) (rs' : RandomState),
      choice n 3%nat rs = Ok ([k; k1; k2], rs') /\
      (k < n)%nat /\ (k1 < n)%nat /\ (k2 < n)%nat /\
      k <> k1 /\ k <> k2 /\ k1 <> k2.
End DESnooker.

(** ** backends/default.py and backends/hdf.py *)

(** [np.resize(a, (l, ...))] along the first axis: the rows repeated in
    order up to [l] of them, zeros when there is nothing to repeat. *)
Definition np_resize {A : Type} (zero : A) (a : list A) (l : nat) : list A :=
  match a with
  | [] => replicate l zero
  | _ => take l (concat (replicate l a))
  end.

(** [dataset.resize(l, axis=0)] of h5py: cut, or grown with the fill value. *)
Definition h5_resize {A : Type} (fill : A) (a : list A) (l : nat) : list A :=
  take l a ++ replicate (l - length a) fill.

Module DefaultBackend.
Import Numeric.
Local Open Scope Z_scope.

Record t : Type := {
  niter : Z;
  size : Z;
  nwalkers : option nat;
  ndim : option nat;
  _coords : option (list matrix);
  _lnprior : option matrix;
  _lnlike : option matrix;
  _acceptance : list Z
}.

(** [DefaultBackend()] after [reset]. *)
Definition reset : t :=
  {| niter := 0; size := 0; nwalkers := None; ndim := None;
     _coords := None; _lnprior := None; _lnlike := None;
     _acceptance := [] |}.

Section Extend.
(** What [np.empty] leaves in the new arrays. *)
Variable uninit : float.

(** [DefaultBackend.extend(n)]. *)
Definition extend (n : Z) (b : t) : result t :=
  match nwalkers b, ndim b with
  | Some k, Some d =>
      let l := niter b + n in
      if l <? 0
      then Error (ValueError "negative dimensions are not allowed")
      else
        let rows := Z.to_nat l in
        match _coords b with
        | None =>
            Ok {| niter := niter b; size := l;
                  nwalkers := nwalkers b; ndim := ndim b;
                  _coords :=
                    Some (replicate rows (replicate k (replicate d uninit)));
                  _lnprior := Some (replicate rows (replicate k uninit));
                  _lnlike := Some (replicate rows (replicate k uninit));
                  _acceptance := replicate k 0 |}
        | Some c =>
            Ok {| niter := niter b; size := l;
                  nwalkers := nwalkers b; ndim := ndim b;
                  _coords :=
                    Some (np_resize (replicate k (Numeric.zeros d)) c rows);
                  _lnprior :=
                    (fun a => np_resize (Numeric.zeros k) a rows)
                      <$> _lnprior b;
                  _lnlike :=
                    (fun a => np_resize (Numeric.zeros k) a rows)
                      <$> _lnlike b;
                  _acceptance := _acceptance b |}
        end
  | _, _ => Error (TypeError "an integer is required")
  end.
End Extend.

(** The number of iterations the arrays have room for. *)
Definition capacity (b : t) : nat := length (default [] (_coords b)).

(** The test of [update] that triggers another [extend]. *)
Definition must_extend (b : t) : bool := size b <=? niter b.

(** [a[i] = row] on an array that may still be [None]. *)
Definition store {A : Type} (a : option (list A)) (i : Z) (row : A)
  : result (option (list A)) :=
  match a with
  | None => Error (TypeError "object is not subscriptable")
  | Some l =>
      if i <? 0 then Error IndexError
      else do l <- setitem l (Z.to_nat i) row; Ok (Some l)
  end.

Section Update.
Variable uninit : float.

(** Modelled from the spec: the accessors [get_coords], [get_lnprior]
    and [get_lnlike] of the ensemble, which are not among the sources:
    they hand the coordinates, log-priors and log-likelihoods of the
    iteration to the row that records them. *)
Definition get_coords (ensemble : Ensemble.t) : matrix :=
  Ensemble._coords ensemble.
Definition get_lnprior (ensemble : Ensemble.t) : vec :=
  Ensemble._lnprior ensemble.
Definition get_lnlike (ensemble : Ensemble.t) : vec :=
  Ensemble._lnlike ensemble.

(** [DefaultBackend.update(ensemble)]. *)
Definition update (ensemble : Ensemble.t) (b : t) : result t :=
  let i := niter b in
  do b <- (if must_extend b then extend uninit (i - size b + 1) b
           else Ok b);
  do c <- store (_coords b) i (get_coords ensemble);
  do lp <- store (_lnprior b) i (get_lnprior ensemble);
  do ll <- store (_lnlike b) i (get_lnlike ensemble);
  Ok {| niter := niter b + 1; size := size b;
        nwalkers := nwalkers b; ndim := ndim b;
        _coords := c; _lnprior := lp; _lnlike := ll;
        _acceptance :=
          zip_with (fun (a : Z) (acc : bool) => a + (if acc then 1 else 0))
            (_acceptance b) (Ensemble.acceptance ensemble) |}.
End Update.
End DefaultBackend.

Module HDFBackend.
Import Numeric.
Local Open Scope Z_scope.

(** The group [name] of the file: its attributes and datasets. *)
Record group : Type := {
  niter : Z;
  size : Z;
  coords : list matrix;
  lnprior : matrix;
  lnlike : matrix;
  acceptance : list Z;
  metadata : list (string * matrix)
}.

(** The backend object and the file it writes ([None]: no group yet). *)
Record t : Type := {
  initialized : bool;
  nwalkers : option nat;
  ndim : option nat;
  file : option group
}.

(** [HDFBackend(filename, name)] after [reset]; the file is as found. *)
Definition reset (f : option group) : t :=
  {| initialized := false; nwalkers := None; ndim := None; file := f |}.

Section Extend.
(** The attribute [metadata_spec]: the names of the metadata datasets. *)
Variable metadata_spec : list string.

(** [HDFBackend.extend(n)].  A dataset made without [maxshape] cannot
    be resized, so a second call raises when there is metadata. *)
Definition extend (n : Z) (b : t) : result t :=
  match nwalkers b, ndim b with
  | Some k, Some d =>
      if negb (initialized b) then
        if n <? 0
        then Error (ValueError "negative dimensions are not allowed")
        else
          let rows := Z.to_nat n in
          let g :=
            {| niter := 0; size := n;
               coords := replicate rows (replicate k (Numeric.zeros d));
               lnprior := replicate rows (Numeric.zeros k);
               lnlike := replicate rows (Numeric.zeros k);
               acceptance := replicate k 0;
               metadata :=
                 map (fun name =>
                        (name, replicate rows (Numeric.zeros k)))
                     metadata_spec |} in
          Ok {| initialized := true; nwalkers := nwalkers b;
                ndim := ndim b; file := Some g |}
      else
        match file b with
        | None => Error (Upstream "KeyError")
        | Some g =>
            let niter := niter g in
            let size := size g in
            let l := niter + n in
            if l <? 0
            then Error (ValueError "negative dimensions are not allowed")
            else
              let rows := Z.to_nat l in
              match metadata_spec with
              | [] =>
                  let g' :=
                    {| niter := niter; size := size;
                       coords :=
                         h5_resize (replicate k (Numeric.zeros d))
                           (coords g) rows;
                       lnprior :=
                         h5_resize (Numeric.zeros k) (lnprior g) rows;
                       lnlike :=
                         h5_resize (Numeric.zeros k) (lnlike g) rows;
                       acceptance := acceptance g;
                       metadata := metadata g |} in
                  Ok {| initialized := true; nwalkers := nwalkers b;
                        ndim := ndim b; file := Some g' |}
              | _ :: _ =>
                  Error (TypeError "Only chunked datasets can be resized")
              end
        end
  | _, _ => Error (TypeError "an integer is required")
  end.
End Extend.

(** The number of iterations the datasets have room for. *)
Definition capacity (b : t) : nat :=
  match file b with
  | Some g => length (coords g)
  | None => O
  end.

(** The [size] attribute of the group, [0] without one. *)
Definition stored_size (b : t) : Z :=
  match file b with
  | Some g => size g
  | None => 0
  end.

(** The [niter] attribute of the group, [0] without one. *)
Definition committed (b : t) : Z :=
  match file b with
  | Some g => niter g
  | None => 0
  end.

(** The test of [update] that triggers another [extend]. *)
Definition must_extend (b : t) : bool := stored_size b <=? committed b.

(** [dataset[i, w] = x]: both indices must be in range. *)
Definition write {A : Type} (a : list (list A)) (i w : nat) (x : A)
  : result (list (list A)) :=
  match a !! i with
  | None => Error IndexError
  | Some row => do row <- setitem row w x; setitem a i row
  end.

Section Update.
Variable metadata_spec : list string.
(** [walker.metadata[name]]. *)
Variable walker_metadata : Walker.t -> string -> float.

(** The writes for the walker [w] at the iteration [i]. *)
Definition write_walker (i : nat) (w : nat) (walker : Walker.t)
    (g : group) : result group :=
  do c <- write (coords g) i w (Walker.coords walker);
  do lp <- write (lnprior g) i w (Walker.lnprior walker);
  do ll <- write (lnlike g) i w (Walker.lnlike walker);
  do md <-
    pool_map
      (fun entry : string * matrix =>
         do rows <- write (snd entry) i w
                      (walker_metadata walker (fst entry));
         Ok (fst entry, rows))
      (metadata g);
  Ok {| niter := niter g; size := size g; coords := c; lnprior := lp;
        lnlike := ll; acceptance := acceptance g; metadata := md |}.

(** [HDFBackend.update(ensemble)]. *)
Definition update (ensemble : Ensemble.t) (b : t) : result t :=
  match file b with
  | None => Error (Upstream "KeyError")
  | Some g0 =>
      let niter := niter g0 in
      let size := size g0 in
      do b <- (if size <=? niter
               then extend metadata_spec (niter - size + 1) b
               else Ok b);
      match file b with
      | None => Error (Upstream "KeyError")
      | Some g =>
          if niter <? 0 then Error IndexError
          else
            do g <- for_enumerate (write_walker (Z.to_nat niter)) 0
                      (Ensemble.walkers ensemble) g;
            let g :=
              {| HDFBackend.niter := niter + 1; HDFBackend.size := HDFBackend.size g;
                 coords := coords g; lnprior := lnprior g;
                 lnlike := lnlike g;
                 acceptance :=
                   zip_with
                     (fun (a : Z) (acc : bool) => a + (if acc then 1 else 0))
                     (acceptance g) (Ensemble.acceptance ensemble);
                 metadata := metadata g |} in
            Ok {| initialized := initialized b; nwalkers := nwalkers b;
                  ndim := ndim b; file := Some g |}
      end
  end.
End Update.
End HDFBackend.

(** ** Worked instances *)

(** Concrete models, streams and inputs on which the definitions above are
    run.  [exp] and [ln] are executable stand-ins for [np.exp] and [np.log],
    good to about twelve digits; the theorems are stated for any such
    functions. *)
Module Examples.
Import Numeric Random.
Local Open Scope float_scope.

Fixpoint exp_series (n : nat) (k y : float) : float :=
  match n with
  | O => 1
  | S n' => 1 + y / k * exp_series n' (k + 1) y
  end.

Fixpoint squarings (n : nat) (t : float) : float :=
  match n with
  | O => t
  | S n' => squarings n' (t * t)
  end.

Definition exp (x : float) : float :=
  if is_nan x then nan
  else if x <? -746 then 0
  else if 710 <? x then infinity
  else squarings 10 (exp_series 14 1 (x / 1024)).

Fixpoint atanh_series (n : nat) (k z2 : float) : float :=
  match n with
  | O => 1 / k
  | S n' => 1 / k + z2 * atanh_series n' (k + 2) z2
  end.

Definition ln (x : float) : float :=
  if is_nan x then nan
  else if x <? 0 then nan
  else if x =? 0 then neg_infinity
  else if is_infinity x then infinity
  else
    let '(m, e) := Z.frexp x in
    let '(m, e) := if m <? 0.75 then (2 * m, (e - 1)%Z) else (m, e) in
    let z := (m - 1) / (m + 1) in
    2 * z * atanh_series 30 1 (z * z)
    + float_of_Z e * 0.6931471805599453.

(** testing/common.py, [NormalWalker(ivar, width)]. *)
Definition normal_get_lnprior (width : float) (p : vec) : float :=
  if existsb (fun x => width <? abs x) p then neg_infinity else 0.

Definition normal_get_lnlike (ivar : float) (p : vec) : float :=
  -0.5 * foldl PrimFloat.add 0 (map (fun x => x * x * ivar) p).

Definition normal_walker (ivar width : float) (p : vec)
  : result Walker.t :=
  Ok {| Walker.coords := p;
        Walker.lnprior := normal_get_lnprior width p;
        Walker.lnlike := normal_get_lnlike ivar p |}.

(** testing/common.py, [UniformWalker]. *)
Definition uniform_walker (p : vec) : result Walker.t :=
  Ok {| Walker.coords := p;
        Walker.lnprior :=
          if forallb (fun x => (-1 <? x) && (x <? 1)) p
          then 0 else neg_infinity;
        Walker.lnlike := 0 |}.

(** A density with a pole at the origin: [log p(x) = 1 / x^2]. *)
Definition pole_log_prob (q : vec) : float :=
  match q with
  | x :: _ => 1 / (x * x)
  | [] => 0
  end.

Definition pole_grad (q : vec) : vec :=
  map (fun x => -2 / (x * x * x)) q.

(** The standard normal in any dimension. *)
Definition gauss_log_prob (q : vec) : float := -0.5 * dot q q.
Definition gauss_grad (q : vec) : vec := vneg q.

(** A flat density. *)
Definition flat_log_prob (q : vec) : float := 0.
Definition flat_grad (q : vec) : vec := map (fun _ => 0) q.

(** *** A run of the Hamiltonian move into the pole *)

Definition pole_start : HMC.State.t :=
  {| HMC.State.coords := [1]; HMC.State.lnprob := 1;
     HMC.State.grad_lnprob := None; HMC.State.accepted := false |}.

Definition pole_call : HMC.State.t * float :=
  HMC.__call__ pole_log_prob pole_grad (HMC._hmc_vector (HMC.Zero_d 1)) 1 1
    pole_start [0].

(** *** A run of the no-U-turn move on the flat density *)

Definition nuts_start : NUTS.State.t :=
  {| NUTS.State.coords := [0]; NUTS.State.log_probability := 0;
     NUTS.State.grad_log_probability := [0];
     NUTS.State._momentum := []; NUTS.State.accepted := false;
     NUTS.State._nuts_steps := None |}.

(** The wrapper with unit step and unit mass on the flat density. *)
Definition nuts_call (max_depth : nat) :=
  NUTS.__call__ flat_log_prob flat_grad ln exp (HMC._hmc_vector (HMC.Zero_d 1)) 1
    max_depth 1000.

Definition nuts_build_tree :=
  NUTS.build_tree flat_log_prob flat_grad ln (HMC._hmc_vector (HMC.Zero_d 1)) 1 1000.

Definition nuts_doubling :=
  NUTS.doubling flat_log_prob flat_grad ln (HMC._hmc_vector (HMC.Zero_d 1)) 1 1000.

(** The slice variable of the run: the first draw is [0.5]. *)
Definition nuts_u : float := 0 + (exp (0 - 0.5 * 1) - 0) * 0.5.

(** The variables of the loop at its start, the first draw consumed, and
    after its first and second turn when every draw is [0.75]. *)
Definition nuts_t0 : NUTS.trajectory :=
  let s := NUTS.State.set_momentum [1] nuts_start in
  {| NUTS.state := s; NUTS.state_minus := s; NUTS.state_plus := s;
     NUTS.n := 1;
     NUTS.random := snd (rand (seeded [0.5; 0.75; 0.75; 0.75; 0.75; 0.75])) |}.

Definition nuts_t1 : NUTS.trajectory := fst (nuts_doubling 0 nuts_u nuts_t0).
Definition nuts_t2 : NUTS.trajectory := fst (nuts_doubling 1 nuts_u nuts_t1).

(** *** Two backends for two walkers in one dimension, extended twice *)

Definition default_fresh : DefaultBackend.t :=
  {| DefaultBackend.niter := 0; DefaultBackend.size := 0;
     DefaultBackend.nwalkers := Some 2%nat;
     DefaultBackend.ndim := Some 1%nat;
     DefaultBackend._coords := None; DefaultBackend._lnprior := None;
     DefaultBackend._lnlike := None; DefaultBackend._acceptance := [] |}.

Definition hdf_fresh : HDFBackend.t :=
  {| HDFBackend.initialized := false;
     HDFBackend.nwalkers := Some 2%nat; HDFBackend.ndim := Some 1%nat;
     HDFBackend.file := None |}.

Definition default_extended_twice : result DefaultBackend.t :=
  do b <- DefaultBackend.extend 0 2 default_fresh;
  DefaultBackend.extend 0 5 b.

Definition hdf_extended_twice : result HDFBackend.t :=
  do b <- HDFBackend.extend [] 2 hdf_fresh;
  HDFBackend.extend [] 5 b.

(** *** Ensembles *)

(** An ensemble in which a move has installed a walker whose likelihood
    is NaN. *)
Definition spoiled_ensemble : Ensemble.t :=
  {| Ensemble.nwalkers := 2; Ensemble.ndim := 1;
     Ensemble.walkers :=
       [ {| Walker.coords := [0.5]; Walker.lnprior := 0;
            Walker.lnlike := -0.125 |};
         {| Walker.coords := [0.25]; Walker.lnprior := 0;
            Walker.lnlike := nan |} ];
     Ensemble._coords := [[0.5]; [-0.5]];
     Ensemble._lnprior := [0; 0];
     Ensemble._lnlike := [-0.125; -0.125];
     Ensemble.acceptance := [true; true] |}.

(** An ensemble in which a move has installed a feasible walker. *)
Definition moved_ensemble : Ensemble.t :=
  {| Ensemble.nwalkers := 2; Ensemble.ndim := 1;
     Ensemble.walkers :=
       [ {| Walker.coords := [0.5]; Walker.lnprior := 0;
            Walker.lnlike := -0.125 |};
         {| Walker.coords := [0.25]; Walker.lnprior := 0;
            Walker.lnlike := -0.03125 |} ];
     Ensemble._coords := [[0.5]; [-0.5]];
     Ensemble._lnprior := [0; 0];
     Ensemble._lnlike := [-0.125; -0.125];
     Ensemble.acceptance := [true; true] |}.

(** *** An ensemble for the Metropolis-Hastings move *)

Definition mh_state (c : vec) : MH.State.t :=
  {| MH.State.coords := c; MH.State.log_probability := gauss_log_prob c;
     MH.State.accepted := false |}.

(** The walkers are the ensemble; [propose] evaluates the standard
    normal at each candidate, [update] installs the accepted states and
    keeps the others. *)
#[export] Instance walkers_ensemble : MH.EnsembleLike (list MH.State.t) :=
  {| MH.ens_ndim := fun _ => 1%nat;
     MH.ens_coords := map MH.State.coords;
     MH.ens_walkers := fun e => e;
     MH.ens_propose := fun e q => Ok (map mh_state (take (length e) q));
     MH.ens_update := fun e states =>
       Ok (zip_with
             (fun old new => if MH.State.accepted new then new else old)
             e states) |}.

(** A random walk: every walker is shifted by a fresh draw less one
    half; the proposal is symmetric. *)
Fixpoint walk_proposal (rs : RandomState) (coords : matrix)
  : matrix * vec * RandomState :=
  match coords with
  | [] => ([], [], rs)
  | c :: coords' =>
      let '(r, rs) := rand rs in
      let '(q, factor, rs) := walk_proposal rs coords' in
      (map (fun x => x + (r - 0.5)) c :: q, 0 :: factor, rs)
  end.

Definition mh_walkers : list MH.State.t :=
  [mh_state [1]; mh_state [0]].

Definition mh_stream : RandomState := seeded [0.25; 0.75; 0.99].

(** *** A generator for the snooker move *)

(** [choice(n, k, replace=False)] as consecutive indices from the
    position of the stream, modulo [n]. *)
Definition rotating_choice (n k : nat) (rs : RandomState)
  : result (list nat * RandomState) :=
  if (k <=? n)%nat
  then Ok (map (fun d => ((pos rs + d) mod n)%nat) (seq 0 k),
           {| draws := draws rs; pos := (pos rs + k)%nat |})
  else Error (ValueError "Cannot take a larger sample than population").

Definition snooker_set : matrix := [[0; 0]; [1; 1]].
Definition snooker_complement : matrix := [[1; 0]; [0; 2]; [3; 1]; [2; 2]].

(** The ensemble that is recorded: two normal walkers. *)
Definition two_walkers : result Ensemble.t :=
  Ensemble.__init__ (normal_walker 1 infinity) (fun _ => nan)
    (Ensemble.Rows [[0.5]; [-0.5]]).

Definition no_metadata (w : Walker.t) (name : string) : float := 0.

(** The backends after two records. *)
Definition default_recorded_twice : result DefaultBackend.t :=
  do e <- two_walkers;
  do b <- default_extended_twice;
  do b <- DefaultBackend.update 0 e b;
  DefaultBackend.update 0 e b.

Definition hdf_recorded_twice : result HDFBackend.t :=
  do e <- two_walkers;
  do b <- hdf_extended_twice;
  do b <- HDFBackend.update [] no_metadata e b;
  HDFBackend.update [] no_metadata e b.

(** And after a third. *)
Definition default_recorded_thrice : result DefaultBackend.t :=
  do e <- two_walkers;
  do b <- default_recorded_twice;
  DefaultBackend.update 0 e b.

Definition hdf_recorded_thrice : result HDFBackend.t :=
  do e <- two_walkers;
  do b <- hdf_recorded_twice;
  HDFBackend.update [] no_metadata e b.
End Examples.

(** ** ensemble.py, the other methods *)

Module EnsembleOps.
Import Numeric.

(** A [slice] object with non-negative bounds; [slice(None)] is the
    default of [propose]. *)
Inductive pyslice : Type :=
  | slice_None
  | slice_range (start stop : nat).

(** [l[slice]]: the bounds are clamped to the list. *)
Definition getslice {A : Type} (sl : pyslice) (l : list A) : list A :=
  match sl with
  | slice_None => l
  | slice_range start stop => take (stop - start) (drop start l)
  end.

Section Propose.
(** [walker.propose(coords)] of each walker of the ensemble. *)
Variable walker_propose : Walker.t -> vec -> result Walker.t.

(** [_mapping_zipper("propose").__call__]. *)
Definition _mapping_zipper (args : Walker.t * vec) : result Walker.t :=
  let '(obj, a) := args in
  walker_propose obj a.

(** [Ensemble.propose(coords, slice)]. *)
Definition propose (e : Ensemble.t) (coords : matrix) (sl : pyslice)
  : result (list Walker.t) :=
  pool_map _mapping_zipper (zip (getslice sl (Ensemble.walkers e)) coords).
End Propose.

(** [Ensemble.__len__]. *)
Definition __len__ (e : Ensemble.t) : nat := Ensemble.nwalkers e.

(** The property [Ensemble.lnprob]. *)
Definition lnprob (e : Ensemble.t) : vec :=
  zip_with PrimFloat.add (Ensemble._lnprior e) (Ensemble._lnlike e).

Section Pickle.
(** The values of the attributes of an ensemble object, and the pool
    [DefaultPool()] makes. *)
Variable attr : Type.
Variable DefaultPool : attr.

(** [Ensemble.__getstate__] on the attribute dictionary of the object:
    the dictionary returned and the dictionary of the object afterwards.
    They are one dictionary, [self.__dict__], from which the pool was
    popped. *)
Definition __getstate__ (self : gmap string attr)
  : gmap string attr * gmap string attr :=
  let d := delete "pool"%string self in
  (d, d).

(** [Ensemble.__setstate__(state)]: the attribute dictionary of the
    object afterwards. *)
Definition __setstate__ (state : gmap string attr) : gmap string attr :=
  <["pool"%string := DefaultPool]> state.
End Pickle.
End EnsembleOps.

(** ** moves/hmc.py, the splits of [HamiltonianMove.update] *)

Module HMCSplit.

(** [np.arange(nwalkers) % nsplits]: numpy gives zero where it divides by
    zero. *)
Definition labels (nwalkers nsplits : nat) : list nat :=
  map (fun k => match nsplits with
                | O => O
                | S _ => (k mod nsplits)%nat
                end)
      (seq 0 nwalkers).

(** [S1 = inds == i] and [S2 = inds != i]. *)
Definition S1 (i : nat) (inds : list nat) : list bool :=
  map (fun x => (x =? i)%nat) inds.

Definition S2 (i : nat) (inds : list nat) : list bool :=
  map (fun x => negb (x =? i)%nat) inds.

(** [np.arange(len(mask))[mask]]: the positions the mask selects. *)
Definition selected (mask : list bool) : list nat :=
  map fst (filter (fun pb : nat * bool => snd pb = true)
             (zip (seq 0 (length mask)) mask)).
End HMCSplit.

(** ** moves/nuts.py, the leapfrog orbit *)

Module NUTSOrbit.
Import Numeric Random NUTS.
Local Open Scope float_scope.

(** The edge of a subtree next to the state it was built from, and the
    edge away from it: going backwards the minus edge is the far one. *)
Definition near_edge (v : float) (t : tree) : State.t :=
  if v <? 0 then state_p t else state_m t.

Definition far_edge (v : float) (t : tree) : State.t :=
  if v <? 0 then state_m t else state_p t.

Section Orbit.
Variable log_prob : vec -> float.
Variable grad_log_prob : vec -> vec.
Variable cov : HMC.metric.
Variable epsilon : float.

(** [k] calls of [leapfrog] with the step [v * epsilon], each on the
    state the one before returned. *)
Definition orbit (v : float) (s : State.t) (k : nat) : State.t :=
  Nat.iter k (fun st => leapfrog log_prob grad_log_prob cov st (v * epsilon)) s.

(** What a subtree of depth [j] holds: [k] leapfrog steps from the state
    it was built from, at most [2 ^ j] and exactly that many when its flag
    is set; the near edge is the first of them, the far edge the last,
    the proposal one of them, and the count is at most their number. *)
Definition on_orbit (j : nat) (state : State.t) (v : float) (t : tree)
  : Prop :=
  exists k i : nat,
    (1 <= i <= k)%nat /\ (k <= 2 ^ j)%nat /\
    near_edge v t = orbit v state 1 /\
    far_edge v t = orbit v state k /\
    state_pr t = orbit v state i /\
    (0 <= n_pr t <= Z.of_nat k)%Z /\
    (s_pr t = true -> k = (2 ^ j)%nat).
End Orbit.

End NUTSOrbit.

(** ** backends/default.py, the other methods *)

(** [a[:z]] for a Python integer [z]: a negative [z] counts from the
    end. *)
Definition upto {A : Type} (a : list A) (z : Z) : list A :=
  if (z <? 0)%Z then take (length a - Z.to_nat (- z)) a
  else take (Z.to_nat z) a.

Module DefaultBackendOps.
Import DefaultBackend.
Local Open Scope Z_scope.

(** [DefaultBackend.check_dimensions(ens)]: the backend afterwards, and
    the exception if one is raised.  The dimensions that were unset are
    set before the comparison. *)
Definition check_dimensions (ens : Ensemble.t) (b : t) : t * option exn :=
  let nw := match nwalkers b with
            | None => Ensemble.nwalkers ens
            | Some k => k
            end in
  let nd := match ndim b with
            | None => Ensemble.ndim ens
            | Some d => d
            end in
  let b' := {| niter := niter b; size := size b;
               nwalkers := Some nw; ndim := Some nd;
               _coords := _coords b; _lnprior := _lnprior b;
               _lnlike := _lnlike b; _acceptance := _acceptance b |} in
  if negb (nw =? Ensemble.nwalkers ens)%nat
     || negb (nd =? Ensemble.ndim ens)%nat
  then (b', Some (ValueError "Dimension mismatch"))
  else (b', None).

(** The property [coords]. *)
Definition coords (b : t) : option (list matrix) :=
  (fun c => upto c (niter b)) <$> _coords b.

(** The properties [lnprior] and [lnlike]: they subscript the array
    without looking whether there is one. *)
Definition lnprior (b : t) : result matrix :=
  match _lnprior b with
  | None => Error (TypeError "object is not subscriptable")
  | Some a => Ok (upto a (niter b))
  end.

Definition lnlike (b : t) : result matrix :=
  match _lnlike b with
  | None => Error (TypeError "object is not subscriptable")
  | Some a => Ok (upto a (niter b))
  end.

(** The property [lnprob]. *)
Definition lnprob (b : t) : result matrix :=
  do lp <- lnprior b;
  do ll <- lnlike b;
  Ok (zip_with (zip_with PrimFloat.add) lp ll).

(** An array of [size] rows of [k] entries, and one of [size] rows of
    [k] rows of [d] entries. *)
Definition rows2 (size : Z) (k : nat) (a : matrix) : Prop :=
  Z.of_nat (length a) = size /\ Forall (fun r => length r = k) a.

Definition rows3 (size : Z) (k d : nat) (c : list matrix) : Prop :=
  Z.of_nat (length c) = size /\
  Forall (fun m => length m = k /\ Forall (fun r => length r = d) m) c.

(** What holds of a backend between calls: the dimensions are set, the
    committed iterations are no more than the size, and the three arrays
    are all absent, with size zero, or all there with the shapes
    [(size, nwalkers, ndim)] and [(size, nwalkers)]. *)
Definition consistent (b : t) : Prop :=
  exists k d,
    nwalkers b = Some k /\ ndim b = Some d /\
    0 <= niter b <= size b /\
    match _coords b, _lnprior b, _lnlike b with
    | None, None, None => size b = 0
    | Some c, Some lp, Some ll =>
        rows3 (size b) k d c /\ rows2 (size b) k lp /\ rows2 (size b) k ll
    | _, _, _ => False
    end.

(** An ensemble whose arrays have the shapes of one iteration of the
    backend. *)
Definition fits (ensemble : Ensemble.t) (b : t) : Prop :=
  exists k d,
    nwalkers b = Some k /\ ndim b = Some d /\
    length (get_coords ensemble) = k /\
    Forall (fun r => length r = d) (get_coords ensemble) /\
    length (get_lnprior ensemble) = k /\
    length (get_lnlike ensemble) = k.

(** The committed rows of the three arrays, none when there is no
    array. *)
Definition committed (b : t) : list matrix * matrix * matrix :=
  (default [] (coords b),
   match lnprior b with Ok a => a | Error _ => [] end,
   match lnlike b with Ok a => a | Error _ => [] end).
End DefaultBackendOps.

(** ** More examples *)

Module MoreExamples.
Import Numeric Random Examples.
Local Open Scope float_scope.

(** The start of a Hamiltonian trajectory on the flat density, and the
    same point as the no-U-turn wrapper holds it, with unit momentum. *)
Definition hmc_flat_start : HMC.State.t :=
  {| HMC.State.coords := [0]; HMC.State.lnprob := 0;
     HMC.State.grad_lnprob := Some [0]; HMC.State.accepted := false |}.

Definition nuts_flat_start : NUTS.State.t :=
  NUTS.State.set_momentum [1] nuts_start.

(** Five walkers in two splits, the labels shuffled. *)
Definition shuffled_labels : list nat := [1; 0; 0; 0; 1]%nat.

(** A proposal that returns the coordinates as they are and no
    log-ratios. *)
Definition short_proposal (rs : RandomState) (coords : matrix)
  : matrix * vec * RandomState :=
  (coords, [], rs).

(** An in-memory backend for two walkers in one dimension with room for
    two iterations, one of them recorded. *)
Definition default_one_recorded : DefaultBackend.t :=
  {| DefaultBackend.niter := 1; DefaultBackend.size := 2;
     DefaultBackend.nwalkers := Some 2%nat;
     DefaultBackend.ndim := Some 1%nat;
     DefaultBackend._coords := Some [[[0.5]; [-0.5]]; [[7]; [7]]];
     DefaultBackend._lnprior := Some [[0; 0]; [7; 7]];
     DefaultBackend._lnlike := Some [[-0.125; -0.125]; [7; 7]];
     DefaultBackend._acceptance := [1; 1]%Z |}.

(** The same backend with both iterations recorded. *)
Definition default_full : DefaultBackend.t :=
  {| DefaultBackend.niter := 2; DefaultBackend.size := 2;
     DefaultBackend.nwalkers := Some 2%nat;
     DefaultBackend.ndim := Some 1%nat;
     DefaultBackend._coords := Some [[[0.5]; [-0.5]]; [[0.25]; [-0.5]]];
     DefaultBackend._lnprior := Some [[0; 0]; [0; 0]];
     DefaultBackend._lnlike := Some [[-0.125; -0.125]; [-0.03125; -0.125]];
     DefaultBackend._acceptance := [2; 1]%Z |}.
End MoreExamples.

(** * Theorems *)

(** ** Facts about binary64 arithmetic at the infinities *)

Module FloatFacts.
Import SpecFloat.
Local Open Scope float_scope.

Lemma SF_infinity : Prim2SF infinity = S754_infinity false.
Proof. reflexivity. Qed.

Lemma SF_neg_infinity : Prim2SF neg_infinity = S754_infinity true.
Proof. reflexivity. Qed.

Lemma SF_zero : Prim2SF 0 = S754_zero false.
Proof. reflexivity. Qed.

(** A finite number is a zero or has a mantissa and an exponent. *)
Lemma is_finite_SF (x : float) :
  is_finite x = true ->
  (exists s, Prim2SF x = S754_zero s) \/
  (exists s m e, Prim2SF x = S754_finite s m e).
Proof.
  unfold is_finite, is_nan, is_infinity.
  rewrite !FloatAxioms.eqb_spec, FloatAxioms.abs_spec, SF_infinity.
  intros H.
  destruct (Prim2SF x) as [s| s | |s m e]; eauto;
    simpl in H; try discriminate H.
  now destruct s.
Qed.

(** Nothing is below a sum that starts from minus infinity. *)
Lemma ltb_neg_infinity_sum (a b c : float) :
  (c <? neg_infinity + a - b) = false.
Proof.
  rewrite FloatAxioms.ltb_spec, FloatAxioms.sub_spec, FloatAxioms.add_spec, SF_neg_infinity.
  destruct (Prim2SF a) as [ | [|] | | ];
    destruct (Prim2SF b) as [ | [|] | | ];
    destruct (Prim2SF c) as [ | [|] | | ]; reflexivity.
Qed.

(** Adding minus infinity or NaN to zero and subtracting anything gives
    nothing that another number is below. *)
Lemma ltb_zero_plus_neg_infinity (b c : float) :
  (c <? 0 + neg_infinity - b) = false.
Proof.
  rewrite FloatAxioms.ltb_spec, FloatAxioms.sub_spec, FloatAxioms.add_spec, SF_neg_infinity, SF_zero.
  destruct (Prim2SF b) as [ | [|] | | ];
    destruct (Prim2SF c) as [ | [|] | | ]; reflexivity.
Qed.

Lemma ltb_zero_plus_nan (b c : float) : (c <? 0 + nan - b) = false.
Proof.
  rewrite FloatAxioms.ltb_spec, FloatAxioms.sub_spec, FloatAxioms.add_spec, SF_zero.
  replace (Prim2SF nan) with S754_nan by reflexivity.
  destruct (Prim2SF b) as [ | [|] | | ];
    destruct (Prim2SF c) as [ | [|] | | ]; reflexivity.
Qed.

(** Infinity less a finite number is infinity. *)
Lemma zero_plus_infinity_minus_finite (b : float) :
  is_finite b = true -> 0 + infinity - b = infinity.
Proof.
  intros Hb. apply Prim2SF_inj.
  rewrite FloatAxioms.sub_spec, FloatAxioms.add_spec, SF_zero, SF_infinity.
  destruct (is_finite_SF b Hb) as [[s ->] | (s & m & e & ->)]; reflexivity.
Qed.

(** The numbers that are not finite. *)
Lemma not_finite_cases (x : float) :
  is_finite x = false ->
  x = infinity \/ x = neg_infinity \/ x = nan.
Proof.
  unfold is_finite, is_nan, is_infinity.
  rewrite !FloatAxioms.eqb_spec, FloatAxioms.abs_spec, SF_infinity. intros H.
  destruct (Prim2SF x) as [s| [|] | |s m e] eqn:Hx.
  - destruct s; discriminate.
  - right; left. now apply Prim2SF_inj.
  - left. now apply Prim2SF_inj.
  - right; right. now apply Prim2SF_inj.
  - exfalso. simpl in H.
    unfold SFeqb, SFcompare in H.
    rewrite Z.compare_refl, Pos.compare_cont_refl in H.
    destruct s; discriminate.
Qed.
End FloatFacts.

(** ** The numerical gradients leave their argument alone *)

Module NumgradFacts.
Import Numeric Numgrad.
Local Open Scope float_scope.

Section Frame.
Variable f : vec -> float.
Variable eps : float.

Lemma restore (x : vec) (i : nat) (v w : float) :
  x !! i = Some v -> <[i := v]> (<[i := w]> x) = x.
Proof.
  intros Hv. rewrite list_insert_insert_eq. now apply list_insert_id.
Qed.

Lemma step_1_frame y0 x g i : fst (step_1 f eps y0 (x, g) i) = x.
Proof.
  unfold step_1. destruct (x !! i) as [v|] eqn:Hv; simpl; [|reflexivity].
  now apply restore.
Qed.

Lemma step_2_frame x g i : fst (step_2 f eps (x, g) i) = x.
Proof.
  unfold step_2. destruct (x !! i) as [v|] eqn:Hv; simpl; [|reflexivity].
  rewrite list_insert_insert_eq. now apply restore.
Qed.

Lemma foldl_frame (step : vec * vec -> nat -> vec * vec) :
  (forall x g i, fst (step (x, g) i) = x) ->
  forall (idx : list nat) x g, fst (foldl step (x, g) idx) = x.
Proof.
  intros Hstep idx. induction idx as [|i idx IH]; intros x g; simpl.
  - reflexivity.
  - specialize (Hstep x g i). destruct (step (x, g) i) as [x' g'].
    simpl in Hstep. subst x'. apply IH.
Qed.

(** C10: on return from [numerical_gradient_1] and from
    [numerical_gradient_2] the argument array holds exactly the values it
    held at the call: every entry perturbed in place has been written
    back. *)
Theorem numgrad_argument_restored (x : vec) :
  fst (numerical_gradient_1 f eps x) = x /\
  fst (numerical_gradient_2 f eps x) = x.
Proof.
  split.
  - unfold numerical_gradient_1. apply foldl_frame. apply step_1_frame.
  - unfold numerical_gradient_2. apply foldl_frame. apply step_2_frame.
Qed.
End Frame.
End NumgradFacts.

(** ** The ensemble's finiteness invariant *)

Module EnsembleFacts.
Import Numeric Ensemble.

Lemma bind_ok {A B : Type} (r : result A) (k : A -> result B) (b : B) :
  bind r k = Ok b -> exists a, r = Ok a /\ k a = Ok b.
Proof. destruct r as [a|e]; simpl; [eauto | discriminate]. Qed.

Ltac bind_inv H :=
  let a := fresh "a" in
  let Ha := fresh "Ha" in
  apply bind_ok in H; destruct H as (a & Ha & H).

Lemma setitem_ok {A : Type} (a a' : list A) i x :
  setitem a i x = Ok a' -> i < length a /\ a' = <[i := x]> a.
Proof.
  unfold setitem. destruct (Nat.ltb_spec i (length a)); [|discriminate].
  intros [= <-]. auto.
Qed.

Lemma setitem_lt {A : Type} (a : list A) i x :
  i < length a -> setitem a i x = Ok (<[i := x]> a).
Proof.
  intros Hi. unfold setitem. now destruct (Nat.ltb_spec i (length a)); [|lia].
Qed.

Lemma setitem_lt_app {A : Type} (pre : list A) (y : A) (post : list A)
    (i : nat) (x : A) :
  length pre = i ->
  setitem (pre ++ y :: post) i x = Ok (pre ++ x :: post).
Proof.
  intros <-. rewrite setitem_lt by (rewrite length_app; simpl; lia).
  rewrite insert_app_r_alt by lia. now rewrite Nat.sub_diag.
Qed.

Lemma pool_map_length {A B : Type} (f : A -> result B) xs ys :
  pool_map f xs = Ok ys -> length ys = length xs.
Proof.
  revert ys. induction xs as [|x xs IH]; intros ys H; simpl in H.
  - now injection H as <-.
  - bind_inv H. bind_inv H. injection H as <-. simpl. f_equal. auto.
Qed.

Lemma all_finite_lookup (a : vec) k x :
  all_finite a = true -> a !! k = Some x -> isfinite x = true.
Proof.
  revert k. induction a as [|y a IH]; intros k Hall Hk; [discriminate|].
  simpl in Hall. apply andb_true_iff in Hall as [Hy Ha].
  destruct k as [|k]; simpl in Hk.
  - now injection Hk as <-.
  - eauto.
Qed.

Lemma all_finite_map {A : Type} (g : A -> float) (l : list A) :
  all_finite (map g l) = forallb (fun a => isfinite (g a)) l.
Proof. unfold all_finite. induction l; simpl; congruence. Qed.

Lemma forallb_andb {A : Type} (p q : A -> bool) (l : list A) :
  forallb (fun a => p a && q a) l = forallb p l && forallb q l.
Proof.
  induction l as [|a l IH]; simpl; [reflexivity|].
  rewrite IH. destruct (p a), (q a), (forallb p l); reflexivity.
Qed.

Lemma forallb_Exists_false {A : Type} (p : A -> bool) (l : list A) :
  Exists (fun a => p a = false) l -> forallb p l = false.
Proof.
  induction 1 as [a l Ha | a l _ IH]; simpl.
  - now rewrite Ha.
  - rewrite IH. apply andb_false_r.
Qed.

Lemma forallb_Forall_true {A : Type} (p : A -> bool) (l : list A) :
  forallb p l = true -> Forall (fun a => p a = true) l.
Proof.
  induction l as [|a l IH]; simpl; intros H; constructor;
    apply andb_true_iff in H; tauto.
Qed.

(** *** Construction *)

Section Init.
Variable propose : vec -> result Walker.t.
Variable uninit : nat -> float.

Lemma length_empty n : length (empty uninit n) = n.
Proof. unfold empty. now rewrite length_map, length_seq. Qed.

(** The saving loop overwrites the entries from [length pre] on, one per
    walker, whatever they held. *)
Lemma save_initial_run (ws : list Walker.t) :
  forall (pre1 mid1 post1 pre2 mid2 post2 : vec),
    length mid1 = length ws -> length mid2 = length ws ->
    length pre2 = length pre1 ->
    for_enumerate save_initial (length pre1) ws
      (pre1 ++ mid1 ++ post1, pre2 ++ mid2 ++ post2)
    = Ok (pre1 ++ map Walker.lnprior ws ++ post1,
          pre2 ++ map Walker.lnlike ws ++ post2).
Proof.
  induction ws as [|w ws IH]; intros pre1 mid1 post1 pre2 mid2 post2 H1 H2 Hp.
  - destruct mid1, mid2; try discriminate. reflexivity.
  - destruct mid1 as [|m1 mid1], mid2 as [|m2 mid2]; try discriminate.
    simpl in H1, H2. cbn [for_enumerate save_initial].
    rewrite setitem_lt by (rewrite length_app; simpl; lia).
    cbn [bind].
    rewrite setitem_lt by (rewrite length_app; simpl; lia).
    cbn [bind].
    rewrite insert_app_r_alt by lia.
    rewrite (insert_app_r_alt pre2) by lia.
    rewrite Hp, Nat.sub_diag. simpl.
    specialize (IH (pre1 ++ [Walker.lnprior w]) mid1 post1
                   (pre2 ++ [Walker.lnlike w]) mid2 post2).
    rewrite !length_app in IH. simpl in IH.
    replace (length pre1 + 1) with (S (length pre1)) in IH by lia.
    rewrite <- !app_assoc in IH. simpl in IH.
    apply IH; lia.
Qed.

Lemma shape2_length coords n d :
  shape2 coords = Some (n, d) -> n = length (rows_of coords).
Proof.
  unfold shape2. destruct coords as [[|r rs]|d']; [discriminate| |].
  - destruct (forallb _ rs); [|discriminate]. now intros [= <- <-].
  - now intros [= <- <-].
Qed.

(** What [__init__] returns once the coordinates are a matrix and the
    walkers evaluate. *)
Lemma init_run coords n d ws :
  shape2 coords = Some (n, d) ->
  pool_map propose (rows_of coords) = Ok ws ->
  __init__ propose uninit coords =
    if forallb walker_feasible ws
    then Ok {| nwalkers := n; ndim := d; walkers := ws;
               _coords := rows_of coords;
               _lnprior := map Walker.lnprior ws;
               _lnlike := map Walker.lnlike ws;
               acceptance := replicate n true |}
    else Error (ValueError "Invalid (un-allowed) initial coordinates").
Proof.
  intros Hs Hw. unfold __init__. rewrite Hs, Hw. cbn [bind].
  pose proof (shape2_length _ _ _ Hs) as Hn.
  pose proof (pool_map_length _ _ _ Hw) as Hl.
  pose proof (save_initial_run ws [] (empty uninit n) [] [] (empty uninit n) [])
    as Hrun.
  simpl in Hrun. rewrite !app_nil_r in Hrun.
  rewrite Hrun by (rewrite ?length_empty; lia). cbn [bind].
  unfold check_initial. rewrite !all_finite_map.
  unfold walker_feasible. rewrite forallb_andb. reflexivity.
Qed.
End Init.
(** *** Update *)

Lemma setrow_ok a nd i c a' :
  setrow a nd i c = Ok a' -> i < length a /\ length a' = length a.
Proof.
  unfold setrow. destruct (Nat.ltb_spec i (length a)); [|discriminate].
  destruct (length c =? nd).
  - intros [= <-]. now rewrite length_insert.
  - destruct c as [|c0 [|? ?]]; try discriminate.
    intros [= <-]. now rewrite length_insert.
Qed.

Lemma setrow_wf a nd i c :
  i < length a -> length c = nd -> setrow a nd i c = Ok (<[i := c]> a).
Proof.
  intros Hi Hc. unfold setrow.
  destruct (Nat.ltb_spec i (length a)); [|lia].
  now rewrite (proj2 (Nat.eqb_eq _ _) Hc).
Qed.

Lemma copy_walker_ok nd i w c lp ll c' lp' ll' :
  copy_walker nd i w (c, lp, ll) = Ok (c', lp', ll') ->
  i < length lp /\ i < length ll /\
  lp' = <[i := Walker.lnprior w]> lp /\
  ll' = <[i := Walker.lnlike w]> ll.
Proof.
  unfold copy_walker. intros H.
  bind_inv H. bind_inv H. bind_inv H. injection H as <- <- <-.
  apply setitem_ok in Ha0 as [? ->]. apply setitem_ok in Ha1 as [? ->].
  auto.
Qed.

(** The copying loop leaves the probabilities below its start index alone
    and stores walker [k]'s at index [i + k]. *)
Lemma copy_run_lookup nd (ws : list Walker.t) :
  forall i c lp ll c' lp' ll',
    for_enumerate (copy_walker nd) i ws (c, lp, ll) = Ok (c', lp', ll') ->
    (forall j, j < i -> lp' !! j = lp !! j /\ ll' !! j = ll !! j) /\
    (forall k w, ws !! k = Some w ->
       lp' !! (i + k) = Some (Walker.lnprior w) /\
       ll' !! (i + k) = Some (Walker.lnlike w)).
Proof.
  induction ws as [|w0 ws IH]; intros i c lp ll c' lp' ll' H.
  - injection H as <- <- <-. split; [auto|]. intros k w Hk. discriminate.
  - cbn [for_enumerate] in H. bind_inv H. destruct a as [[c1 lp1] ll1].
    apply copy_walker_ok in Ha as (Hi1 & Hi2 & -> & ->).
    apply IH in H as [Hlow Hhigh]. split.
    + intros j Hj. destruct (Hlow j ltac:(lia)) as [-> ->].
      rewrite !list_lookup_insert_ne by lia. auto.
    + intros [|k] w Hk; simpl in Hk.
      * injection Hk as ->. rewrite Nat.add_0_r.
        destruct (Hlow i ltac:(lia)) as [-> ->].
        rewrite !list_lookup_insert_eq by lia. auto.
      * replace (i + S k) with (S i + k) by lia. eauto.
Qed.

(** On a well-shaped ensemble the copying loop succeeds and overwrites
    the three arrays from [length pre] on. *)
Lemma copy_run_wf nd (ws : list Walker.t) :
  Forall (fun w => length (Walker.coords w) = nd) ws ->
  forall (cpre cmid cpost : matrix) (pre1 mid1 post1 pre2 mid2 post2 : vec),
    length cmid = length ws -> length mid1 = length ws ->
    length mid2 = length ws ->
    length pre1 = length cpre -> length pre2 = length cpre ->
    for_enumerate (copy_walker nd) (length cpre) ws
      (cpre ++ cmid ++ cpost, pre1 ++ mid1 ++ post1, pre2 ++ mid2 ++ post2)
    = Ok (cpre ++ map Walker.coords ws ++ cpost,
          pre1 ++ map Walker.lnprior ws ++ post1,
          pre2 ++ map Walker.lnlike ws ++ post2).
Proof.
  induction 1 as [|w ws Hw _ IH];
    intros cpre cmid cpost pre1 mid1 post1 pre2 mid2 post2 Hc H1 H2 Hp1 Hp2.
  - destruct cmid, mid1, mid2; try discriminate. reflexivity.
  - destruct cmid as [|cm cmid], mid1 as [|m1 mid1], mid2 as [|m2 mid2];
      try discriminate.
    simpl in Hc, H1, H2. cbn [for_enumerate copy_walker].
    rewrite setrow_wf by (rewrite ?length_app; simpl; lia || assumption).
    cbn [bind].
    rewrite setitem_lt by (rewrite length_app; simpl; lia).
    cbn [bind].
    rewrite setitem_lt by (rewrite length_app; simpl; lia).
    cbn [bind].
    rewrite (insert_app_r_alt cpre) by lia.
    rewrite (insert_app_r_alt pre1) by lia.
    rewrite (insert_app_r_alt pre2) by lia.
    rewrite Hp1, Hp2, Nat.sub_diag. simpl.
    specialize (IH (cpre ++ [Walker.coords w]) cmid cpost
                   (pre1 ++ [Walker.lnprior w]) mid1 post1
                   (pre2 ++ [Walker.lnlike w]) mid2 post2).
    rewrite !length_app in IH. simpl in IH.
    replace (length cpre + 1) with (S (length cpre)) in IH by lia.
    rewrite <- !app_assoc in IH. simpl in IH.
    apply IH; lia.
Qed.

Lemma all_finite2_map {A : Type} (g : A -> vec) (l : list A) :
  all_finite2 (map g l) = forallb (fun a => all_finite (g a)) l.
Proof. unfold all_finite2. induction l; simpl; congruence. Qed.

(** What [update] returns on a well-shaped ensemble. *)
Lemma update_run (e : t) :
  wf e ->
  update e =
    if forallb walker_finite (walkers e)
    then Ok {| nwalkers := nwalkers e; ndim := ndim e;
               walkers := walkers e;
               _coords := map Walker.coords (walkers e);
               _lnprior := map Walker.lnprior (walkers e);
               _lnlike := map Walker.lnlike (walkers e);
               acceptance := acceptance e |}
    else Error (RuntimeError "An invalid proposal was accepted").
Proof.
  intros (Hw & Hc & Hp & Hl & Hd). unfold update.
  pose proof (copy_run_wf (ndim e) (walkers e) Hd
                [] (_coords e) [] [] (_lnprior e) [] [] (_lnlike e) [])
    as Hrun.
  simpl in Hrun. rewrite !app_nil_r in Hrun.
  rewrite Hrun by lia. cbn [bind].
  unfold check_update. rewrite all_finite2_map, !all_finite_map.
  unfold walker_finite. rewrite !forallb_andb. reflexivity.
Qed.

Lemma update_ok (e e' : t) :
  update e = Ok e' ->
  walkers e' = walkers e /\
  Forall (fun w => walker_feasible w = true) (walkers e') /\
  all_finite2 (_coords e') = true /\
  all_finite (_lnprior e') = true /\
  all_finite (_lnlike e') = true.
Proof.
  unfold update. intros H. bind_inv H. destruct a as [[c lp] ll].
  destruct (check_update c lp ll) eqn:Hchk; [|discriminate].
  injection H as <-. simpl.
  unfold check_update in Hchk.
  apply andb_true_iff in Hchk as [Hchk Hll].
  apply andb_true_iff in Hchk as [Hc Hlp].
  repeat split; try assumption.
  apply copy_run_lookup in Ha as [_ Hhigh].
  apply Forall_lookup_2. intros k w Hk.
  destruct (Hhigh k w Hk) as [H1 H2]. simpl in H1, H2.
  unfold walker_feasible.
  now rewrite (all_finite_lookup _ _ _ Hlp H1),
              (all_finite_lookup _ _ _ Hll H2).
Qed.

(** C1: an ensemble that [__init__] returns has finite log-prior and
    log-likelihood for every walker, and when the walkers evaluate and one
    of these values is not finite [__init__] raises the
    invalid-initial-coordinates error; an ensemble that [update] returns
    has finite stored coordinates, log-priors and log-likelihoods, again
    for every walker, and on a well-shaped ensemble a walker with a
    non-finite coordinate or probability makes [update] raise the
    invalid-proposal-accepted error. *)
Theorem ensemble_finite_invariant
    (propose : vec -> result Walker.t) (uninit : nat -> float) :
  (forall coords e,
      __init__ propose uninit coords = Ok e ->
      _lnprior e = map Walker.lnprior (walkers e) /\
      _lnlike e = map Walker.lnlike (walkers e) /\
      Forall (fun w => walker_feasible w = true) (walkers e) /\
      all_finite (_lnprior e) = true /\
      all_finite (_lnlike e) = true) /\
  (forall coords n d ws,
      shape2 coords = Some (n, d) ->
      pool_map propose (rows_of coords) = Ok ws ->
      Exists (fun w => walker_feasible w = false) ws ->
      __init__ propose uninit coords =
        Error (ValueError "Invalid (un-allowed) initial coordinates")) /\
  (forall e e',
      update e = Ok e' ->
      walkers e' = walkers e /\
      Forall (fun w => walker_feasible w = true) (walkers e') /\
      all_finite2 (_coords e') = true /\
      all_finite (_lnprior e') = true /\
      all_finite (_lnlike e') = true) /\
  (forall e,
      wf e ->
      Exists (fun w => walker_finite w = false) (walkers e) ->
      update e = Error (RuntimeError "An invalid proposal was accepted")).
Proof.
  repeat split.
  1-5: destruct (shape2 coords) as [[n d]|] eqn:Hs;
    [|unfold __init__ in H; rewrite Hs in H; discriminate];
    destruct (pool_map propose (rows_of coords)) as [ws|err] eqn:Hw;
    [|unfold __init__ in H; rewrite Hs, Hw in H; discriminate];
    rewrite (init_run _ _ _ _ _ _ Hs Hw) in H;
    destruct (forallb walker_feasible ws) eqn:Hf; [|discriminate];
    injection H as <-; simpl.
  - reflexivity.
  - reflexivity.
  - now apply forallb_Forall_true.
  - rewrite all_finite_map. unfold walker_feasible in Hf.
    rewrite forallb_andb in Hf. now apply andb_true_iff in Hf as [? ?].
  - rewrite all_finite_map. unfold walker_feasible in Hf.
    rewrite forallb_andb in Hf. now apply andb_true_iff in Hf as [? ?].
  - intros coords n d ws Hs Hw Hex.
    rewrite (init_run _ _ _ _ _ _ Hs Hw).
    now rewrite forallb_Exists_false.
  - apply update_ok in H. tauto.
  - apply update_ok in H. tauto.
  - apply update_ok in H. tauto.
  - apply update_ok in H. tauto.
  - apply update_ok in H. tauto.
  - intros e Hwf Hex. rewrite update_run by assumption.
    now rewrite forallb_Exists_false.
Qed.
End EnsembleFacts.

(** ** The Hamiltonian move *)

Module HMCFacts.
Import Numeric Random HMC.
Local Open Scope float_scope.

(** *** The leapfrog integrator *)

Section Integrator.
Variable log_prob : vec -> float.
Variable grad_log_prob : vec -> vec.
Variable cov : metric.
Variable epsilon : float.

(** The loop over [xrange(L)] is the alternation of the scheme: the
    momentum step is skipped exactly after the last position step. *)
Lemma leap_alternate (L n : nat) :
  forall (k : nat) (q p : vec),
    (k + n = L)%nat ->
    foldl (leap log_prob grad_log_prob cov epsilon (Z.of_nat L))
          (q, p) (seq k n)
    = alternate grad_log_prob cov epsilon n q p.
Proof.
  induction n as [|n IH]; intros k q p Hk; [reflexivity|].
  cbn [seq foldl]. unfold leap at 2.
  destruct n as [|n].
  - destruct (Z.ltb_spec (Z.of_nat k) (Z.of_nat L - 1)); [lia|].
    reflexivity.
  - destruct (Z.ltb_spec (Z.of_nat k) (Z.of_nat L - 1)); [|lia].
    rewrite IH by lia. reflexivity.
Qed.

(** C5: with step size [epsilon] and [L] steps the integrator of
    [_hmc_wrapper.__call__] is the leapfrog scheme: a half step in
    momentum with the gradient at the current position, [L] position
    steps alternating with full momentum steps whose gradient is taken
    at each new position, a closing half step in momentum, and the
    momentum negated; the state returned is the model's at the final
    position. *)
Theorem hmc_integrator_is_leapfrog
    (L : nat) (current_state : State.t) (current_p : vec) :
  let traj :=
    leapfrog_scheme grad_log_prob cov epsilon L
      (State.coords current_state)
      (initial_gradient grad_log_prob current_state) current_p in
  integrate log_prob grad_log_prob cov epsilon (Z.of_nat L)
    current_state current_p
  = (get_state log_prob grad_log_prob (fst traj), snd traj).
Proof.
  unfold integrate, leapfrog_scheme, initial_gradient.
  rewrite Nat2Z.id, (leap_alternate L L 0) by lia.
  assert (Hg : State.grad
            (match State.grad_lnprob current_state with
             | Some _ => current_state
             | None => get_state log_prob grad_log_prob
                         (State.coords current_state)
             end)
          = match State.grad_lnprob current_state with
            | Some g => g
            | None => grad_log_prob (State.coords current_state)
            end).
  { unfold State.grad.
    destruct (State.grad_lnprob current_state) eqn:Hc; simpl;
      [now rewrite Hc | reflexivity]. }
  rewrite Hg.
  destruct (alternate _ _ _ L _ _) as [q p]. reflexivity.
Qed.
End Integrator.

(** *** The acceptance test *)

Section Acceptance.
Variable log_prob : vec -> float.
Variable grad_log_prob : vec -> vec.
Variable cov : metric.
Variable epsilon : float.
Variable nsteps : Z.
Variable ln : float -> float.

Let call := __call__ log_prob grad_log_prob cov epsilon nsteps.
Let run := integrate log_prob grad_log_prob cov epsilon nsteps.

Lemma call_lnprob current_state current_p :
  State.lnprob (fst (call current_state current_p))
  = State.lnprob (fst (run current_state current_p)).
Proof.
  unfold call, run, __call__.
  destruct (integrate _ _ _ _ _ _ _) as [state p]. simpl.
  now destruct (isfinite (State.lnprob state)).
Qed.

(** A proposal that is not finite comes back unaccepted and with the
    factor [0.0]. *)
Lemma call_not_finite current_state current_p :
  isfinite (State.lnprob (fst (run current_state current_p))) = false ->
  call current_state current_p
  = (State.set_accepted false (fst (run current_state current_p)), 0).
Proof.
  unfold call, run, __call__.
  destruct (integrate _ _ _ _ _ _ _) as [state p]. simpl.
  now intros ->.
Qed.

(** A finite proposal comes back with the difference of the kinetic
    energies at the start and at the end. *)
Lemma call_finite current_state current_p :
  isfinite (State.lnprob (fst (run current_state current_p))) = true ->
  let p := snd (run current_state current_p) in
  snd (call current_state current_p)
  = 0.5 * dot current_p (apply cov current_p)
    - 0.5 * dot p (apply cov p).
Proof.
  unfold call, run, __call__.
  destruct (integrate _ _ _ _ _ _ _) as [state p]. simpl.
  now intros ->.
Qed.

(** The test of [HamiltonianMove.update] is [log(u) < factor + new - old]
    for the draw [u]. *)
Lemma accept_test old state factor rs :
  fst (accept ln old (state, factor) rs)
  = if ln (fst (rand rs))
       <? factor + State.lnprob state - State.lnprob old
    then State.set_accepted true state
    else state.
Proof.
  unfold accept. destruct (rand rs) as [r rs']. simpl.
  now destruct (ln r <? _).
Qed.

(** A proposal at minus infinity or NaN is never marked accepted. *)
Lemma rejects_neg_infinity_and_nan old current_state current_p rs :
  let new := State.lnprob (fst (run current_state current_p)) in
  new = neg_infinity \/ new = nan ->
  State.accepted
    (fst (accept ln old (call current_state current_p) rs)) = false.
Proof.
  intros new Hnew.
  assert (Hnf : isfinite new = false) by (destruct Hnew as [-> | ->]; reflexivity).
  unfold new in Hnf. rewrite (call_not_finite _ _ Hnf), accept_test.
  cbn [State.lnprob State.set_accepted]. fold new.
  destruct Hnew as [-> | ->].
  - now rewrite FloatFacts.ltb_zero_plus_neg_infinity.
  - now rewrite FloatFacts.ltb_zero_plus_nan.
Qed.

(** C6, where the code departs from it: a proposal whose
    log-probability is plus infinity comes back with the factor [0.0],
    and the test of [HamiltonianMove.update] then marks it accepted
    whenever the walker's own log-probability is finite, for every draw
    whose logarithm is a number. *)
Theorem hmc_accepts_infinite_log_probability
    (old current_state : State.t) (current_p : vec) (rs : RandomState) :
  State.lnprob (fst (run current_state current_p)) = infinity ->
  is_finite (State.lnprob old) = true ->
  (ln (fst (rand rs)) <? infinity) = true ->
  snd (call current_state current_p) = 0 /\
  State.accepted
    (fst (accept ln old (call current_state current_p) rs)) = true.
Proof.
  intros Hnew Hold Hln.
  assert (Hnf : isfinite (State.lnprob (fst (run current_state current_p)))
                = false) by now rewrite Hnew.
  rewrite (call_not_finite _ _ Hnf), accept_test.
  cbn [State.lnprob State.set_accepted snd]. rewrite Hnew.
  rewrite (FloatFacts.zero_plus_infinity_minus_finite _ Hold), Hln.
  split; reflexivity.
Qed.
End Acceptance.
End HMCFacts.

(** ** The no-U-turn move *)

Module NUTSFacts.
Import Numeric Random NUTS.
Local Open Scope float_scope.

Section Wrapper.
Variable log_prob : vec -> float.
Variable grad_log_prob : vec -> vec.
Variable ln : float -> float.
Variable exp : float -> float.
Variable cov : HMC.metric.
Variable epsilon : float.
Variable delta_max : float.

Let build_tree := build_tree log_prob grad_log_prob ln cov epsilon delta_max.
Let extend := extend log_prob grad_log_prob ln cov epsilon delta_max.
Let doubling := doubling log_prob grad_log_prob ln cov epsilon delta_max.

(** The subtree of a turn of the loop, whatever the direction, is
    built from the minus edge. *)
Lemma extend_from_minus j u v t rs :
  extend j u v t rs = build_tree j (state_minus t) u v rs.
Proof. unfold extend, NUTS.extend. now destruct (v <? 0). Qed.

Lemma NUTS_extend_eq j u v t rs :
  NUTS.extend log_prob grad_log_prob ln cov epsilon delta_max j u v t rs
  = NUTS.build_tree log_prob grad_log_prob ln cov epsilon delta_max j
      (state_minus t) u v rs.
Proof. apply extend_from_minus. Qed.

(** After a forward turn the plus edge is that of the subtree built from
    the minus edge. *)
Lemma doubling_forward_edge (j : nat) (u : float) (t : trajectory) :
  let v := direction (fst (rand (random t))) in
  (v <? 0) = false ->
  state_plus (fst (doubling j u t))
  = state_p (build_tree j (state_minus t) u v (snd (rand (random t)))) /\
  state_minus (fst (doubling j u t)) = state_minus t.
Proof.
  unfold doubling, NUTS.doubling.
  destruct (rand (random t)) as [r0 rs0]. cbn [fst snd]. intros Hv.
  rewrite NUTS_extend_eq, !Hv.
  set (sub := NUTS.build_tree _ _ _ _ _ _ _ _ _ _ _).
  destruct (s_pr sub); [destruct (rand (stream sub)) as [r rs1];
                        destruct (r <? _)|]; split; reflexivity.
Qed.

(** C2, as the code has it: in a turn of the loop of [__call__] the
    current state is replaced by the proposal of the new subtree
    exactly when the subtree's flag [s] holds and the uniform draw is
    below [n_pr / n], with [n] the count accumulated before this turn;
    the counts are added afterwards. *)
Theorem nuts_top_level_replacement (j : nat) (u : float) (t : trajectory) :
  let v := direction (fst (rand (random t))) in
  let sub := extend j u v t (snd (rand (random t))) in
  let r := fst (rand (stream sub)) in
  state (fst (doubling j u t))
  = (if replaces (s_pr sub) (n_pr sub) (n t) r
     then State.set_accepted true (state_pr sub)
     else state t) /\
  n (fst (doubling j u t)) = (n t + n_pr sub)%Z.
Proof.
  unfold doubling, NUTS.doubling, extend, replaces.
  destruct (rand (random t)) as [r0 rs0]. cbn [fst snd].
  set (sub := NUTS.extend _ _ _ _ _ _ _ _ _ _ _).
  destruct (s_pr sub); cbn [andb negb orb].
  - destruct (rand (stream sub)) as [r rs1]. cbn [fst].
    now destruct (r <? _).
  - split; reflexivity.
Qed.
End Wrapper.

(** The first turn of the worked run: the subtree has one valid point and
    the count so far is one.  The state is replaced at the draw 0.75, and
    would be at any draw below 1, that is with probability 1; the
    specified rule, with threshold [1 / (1 + 1)], refuses 0.75. *)
Lemma nuts_replaces_above_specified_probability :
  let sub :=
    Examples.nuts_build_tree 0 (state_minus Examples.nuts_t0)
      Examples.nuts_u 1 (snd (rand (random Examples.nuts_t0))) in
  s_pr sub = true /\ n_pr sub = 1%Z /\ n Examples.nuts_t0 = 1%Z /\
  fst (rand (stream sub)) = 0.75 /\
  State.coords (state Examples.nuts_t0) = [0] /\
  State.coords (state Examples.nuts_t1) = [1] /\
  State.accepted (state Examples.nuts_t1) = true /\
  (forall r, (r <? 1) = true -> replaces true 1 1 r = true) /\
  replaces true 1 1 0.75 = true /\
  replaces_as_specified true 1 1 0.75 = false.
Proof.
  cbv zeta. repeat split; try (vm_compute; reflexivity).
  intros r Hr. unfold replaces. cbn [andb].
  change (float_of_Z 1 / float_of_Z 1) with 1. exact Hr.
Qed.

(** C3, where the code departs from it: in a turn of the loop that goes
    forward the new subtree is built from the minus edge, and its plus
    edge becomes the plus edge of the trajectory.  In the worked run the
    second turn goes forward with the minus edge at coordinate 0 and the
    plus edge at coordinate 1: the subtree built covers the coordinates 1
    and 2 and the plus edge ends at 2, where a subtree from the plus edge
    would end at 3. *)
Theorem nuts_forward_subtree_starts_at_minus_edge :
  (forall log_prob grad_log_prob ln cov epsilon delta_max j u t,
      let v := direction (fst (rand (random t))) in
      (v <? 0) = false ->
      state_plus
        (fst (doubling log_prob grad_log_prob ln cov epsilon delta_max j u t))
      = state_p
          (build_tree log_prob grad_log_prob ln cov epsilon delta_max j
             (state_minus t) u v (snd (rand (random t))))) /\
  (let t1 := Examples.nuts_t1 in
   let v := direction (fst (rand (random t1))) in
   let rs := snd (rand (random t1)) in
   v = 1 /\
   State.coords (state_minus t1) = [0] /\
   State.coords (state_plus t1) = [1] /\
   State.coords (state_plus Examples.nuts_t2) = [2] /\
   State.coords
     (state_p (Examples.nuts_build_tree 1 (edge_as_specified v t1)
                 Examples.nuts_u v rs)) = [3]).
Proof.
  split.
  - intros log_prob grad_log_prob ln cov epsilon delta_max j u t v Hv.
    now apply doubling_forward_edge.
  - vm_compute. repeat split; reflexivity.
Qed.

(** C4: with a positive depth limit [_nuts_wrapper.__call__] returns,
    and the factor it returns is minus infinity; with that factor the
    test of [HamiltonianMove.update] never fires, so the state goes on
    to the ensemble with the [accepted] flag the no-U-turn loop gave
    it. *)
Theorem nuts_factor_leaves_decision
    (log_prob : vec -> float) (grad_log_prob : vec -> vec)
    (ln exp : float -> float) (cov : HMC.metric)
    (epsilon delta_max : float) (depth : nat)
    (start : State.t) (current_p : vec) (rs : RandomState) :
  exists (st : State.t) (rs' : RandomState),
    __call__ log_prob grad_log_prob ln exp cov epsilon (S depth) delta_max
      start current_p rs
    = Ok (st, neg_infinity, rs') /\
    forall (old : HMC.State.t) (rs2 : RandomState),
      fst (HMC.accept ln old (as_hmc_state st, neg_infinity) rs2)
      = as_hmc_state st.
Proof.
  unfold __call__.
  destruct (uniform _ _ rs) as [u rs1].
  destruct (doublings _ _ _ _ _ _ (S depth) 0 u _) as [t j].
  eexists _, _. split; [reflexivity|].
  intros old rs2. rewrite HMCFacts.accept_test.
  now rewrite FloatFacts.ltb_neg_infinity_sum.
Qed.
End NUTSFacts.

(** ** The Metropolis-Hastings move *)

Module MHFacts.
Import Numeric Random MH.
Local Open Scope float_scope.

Section Move.
Context {E : Type} `{EnsembleLike E}.
Variable exp : float -> float.
Variable ndim : option nat.
Variable proposal : RandomState -> matrix -> matrix * vec * RandomState.

(** The test: positive, or a fresh draw below the exponential; the
    stream moves on by that draw and by no other. *)
Lemma accepts_rule (lnpdiff : float) (rs : RandomState) :
  accepts exp lnpdiff rs
  = (rule_as_specified exp lnpdiff (fst (rand rs)),
     if 0 <? lnpdiff then rs else snd (rand rs)).
Proof.
  unfold accepts, rule_as_specified.
  destruct (0 <? lnpdiff); reflexivity.
Qed.

(** What the loop does to a state is what the decision asks for. *)
Lemma mark_code (yes : bool) (state : State.t) :
  (if yes then State.set_accepted true state else state) = mark yes state.
Proof. now destruct yes, state. Qed.

(** The decisions after the first, read off the stream moved on by the
    draw of the first walker. *)
Lemma decisions_shift (row : State.t * State.t * float)
    (rows : list (State.t * State.t * float)) (rs : RandomState) :
  let rs1 := if 0 <? log_ratio_sum row then rs else snd (rand rs) in
  accept_as_specified exp (row :: rows) rs
  = (rule_as_specified exp (log_ratio_sum row) (fst (rand rs))
       :: fst (accept_as_specified exp rows rs1),
     snd (accept_as_specified exp rows rs1)).
Proof.
  intros rs1. unfold accept_as_specified.
  cbn [imap fst snd uniforms take]. rewrite Nat.add_0_r.
  assert (Hpos : forall k : nat,
             Nat.add (pos rs) (if 0 <? log_ratio_sum row then k else S k)
             = Nat.add (pos rs1) k).
  { intros k. subst rs1. destruct (0 <? log_ratio_sum row); cbn; lia. }
  assert (Hdraws : draws rs1 = draws rs).
  { subst rs1. now destruct (0 <? log_ratio_sum row). }
  rewrite Hpos, Hdraws. f_equal. f_equal.
  apply imap_ext. intros i x _. cbn [compose take uniforms].
  now rewrite Hpos.
Qed.

(** The loop by index is the walk over the walkers in order: it marks
    the states by the decisions of the specification and leaves the
    stream after the last draw. *)
Lemma accept_loop_rows (states : list State.t) :
  forall (pre_w ws : list State.t) (pre_f fs : vec) (rs : RandomState),
    length pre_f = length pre_w ->
    (length states <= length ws)%nat ->
    (length states <= length fs)%nat ->
    let decided := accept_as_specified exp (zip (zip states ws) fs) rs in
    accept_loop exp (length pre_w) states (pre_w ++ ws) (pre_f ++ fs) rs
    = Ok (zip_with mark (fst decided) states, snd decided).
Proof.
  induction states as [|state states IH];
    intros pre_w ws pre_f fs rs Hpre Hw Hf; cbn zeta.
  { destruct rs as [d p]. unfold accept_as_specified.
    cbn. now rewrite Nat.add_0_r. }
  destruct ws as [|w ws]; [simpl in Hw; lia|].
  destruct fs as [|f fs]; [simpl in Hf; lia|].
  simpl in Hw, Hf. cbn [accept_loop zip zip_with].
  rewrite (list_lookup_middle pre_w ws w (length pre_w) eq_refl).
  rewrite (list_lookup_middle pre_f fs f (length pre_w) (eq_sym Hpre)).
  fold (zip states ws). fold (zip (zip states ws) fs).
  rewrite decisions_shift. cbn [fst snd zip_with].
  change (log_ratio_sum (state, w, f))
    with (State.log_probability state - State.log_probability w + f).
  rewrite accepts_rule.
  set (rs1 := if 0 <? _ then rs else snd (rand rs)).
  specialize (IH (pre_w ++ [w]) ws (pre_f ++ [f]) fs rs1).
  rewrite !length_app in IH. simpl in IH.
  replace (length pre_w + 1)%nat with (S (length pre_w)) in IH by lia.
  rewrite <- !app_assoc in IH. simpl in IH.
  rewrite IH by lia. cbn [bind]. now rewrite mark_code.
Qed.

(** On states that come unmarked the flags are the decisions. *)
Lemma mark_flags (states : list State.t) :
  forall decisions : list bool,
    length decisions = length states ->
    Forall (fun s => State.accepted s = false) states ->
    map State.accepted (zip_with mark decisions states) = decisions.
Proof.
  induction states as [|state states IH];
    intros [|yes decisions] Hlen Hall; try discriminate; [reflexivity|].
  inversion Hall as [|? ? Hs Hrest]; subst.
  cbn. rewrite Hs, orb_false_r. f_equal.
  apply IH; [now injection Hlen | exact Hrest].
Qed.

(** C7: when the dimensions agree and the ensemble evaluates the
    candidates, [MHMove.update] makes exactly two calls on the
    ensemble: one [propose] with the whole candidate matrix and then
    one [update] with all the states, each state marked accepted when
    its sum [new - old + log-ratio] is positive or a fresh uniform
    draw is below the exponential of the sum; what [update] returns or
    raises is what the move returns or raises.  The uniform of a walker
    is fresh: it is the next number of the stream, no two walkers are
    decided by the same number, a walker whose sum is positive draws
    none, and the stream the move hands back is the one after the last
    draw.  When [propose] returns its states unmarked, the states handed
    to [update] are marked exactly where the rule decides so. *)
Theorem mh_update_protocol (ensemble : E) (rs : RandomState)
    (states : list State.t) :
  let drawn := proposal rs (ens_coords ensemble) in
  let q := fst (fst drawn) in
  let factor := snd (fst drawn) in
  let decided :=
    accept_as_specified exp
      (zip (zip states (ens_walkers ensemble)) factor) (snd drawn) in
  let marked := zip_with mark (fst decided) states in
  dimension_mismatch ndim (ens_ndim ensemble) = false ->
  ens_propose ensemble q = Ok states ->
  (length states <= length (ens_walkers ensemble))%nat ->
  (length states <= length factor)%nat ->
  update exp ndim proposal ensemble rs
  = ([Propose q; Update marked],
     do ensemble <- ens_update ensemble marked;
     Ok (ensemble, snd decided)) /\
  (forall lnpdiff rs',
      accepts exp lnpdiff rs'
      = ((0 <? lnpdiff) || (fst (rand rs') <? exp lnpdiff),
         if 0 <? lnpdiff then rs' else snd (rand rs'))) /\
  (Forall (fun s => State.accepted s = false) states ->
   map State.accepted marked = fst decided).
Proof.
  intros drawn q factor decided marked Hdim Hprop Hw Hf.
  split; [|split; [apply accepts_rule|]];
    [|intros Hall; apply mark_flags; [|exact Hall];
      subst decided; unfold accept_as_specified; cbn [fst];
      rewrite length_imap, !length_zip_with; lia].
  unfold update. rewrite Hdim.
  fold drawn. destruct drawn as [[q' factor'] rs1] eqn:Hd.
  cbn [fst snd] in q, factor, decided. subst q factor.
  rewrite Hprop.
  pose proof (accept_loop_rows states [] (ens_walkers ensemble) []
                factor' rs1 eq_refl Hw Hf) as Hrun.
  cbn [length app] in Hrun. cbn zeta in Hrun. rewrite Hrun.
  reflexivity.
Qed.
End Move.
End MHFacts.

(** ** The snooker move *)

Module DESnookerFacts.
Import Numeric Random DESnooker.
Local Open Scope float_scope.

Section Move.
Variable ln : float -> float.
Variable choice :
  nat -> nat -> RandomState -> result (list nat * RandomState).
Variable uninit_row : nat -> vec.
Variable uninit : nat -> float.
Variable gammas : float.
Variable ndim : nat.

Hypothesis choice_ok : draws_without_replacement choice.

Lemma length_candidate (si z z1 z2 : vec) :
  length si = ndim -> length z = ndim ->
  length (candidate gammas si z z1 z2) = ndim.
Proof using Type.
  intros Hs Hz. unfold candidate, vadd, vscale, vdivs, vsub.
  rewrite length_zip_with, !length_map, length_zip_with. lia.
Qed.

(** The loop fills one row per walker: the candidate made from the
    members drawn for it and the unscaled log-ratio. *)
Lemma step_run (c : matrix) (s : matrix) :
  (3 <= length c)%nat ->
  Forall (fun z => length z = ndim) c ->
  Forall (fun si => length si = ndim) s ->
  forall (pre_q junk_q : matrix) (pre_m junk_m : vec) (rs : RandomState),
    length junk_q = length s -> length junk_m = length s ->
    length pre_m = length pre_q ->
    exists (rows : list (vec * vec)) (rs' : RandomState),
      for_enumerate (step ln choice gammas ndim c) (length pre_q) s
        (pre_q ++ junk_q, pre_m ++ junk_m, rs)
      = Ok (pre_q ++ map fst rows,
            pre_m ++ zip_with
                       (fun si row =>
                          log_norm_difference ln si (snd row) (fst row))
                       s rows,
            rs') /\
      Forall2 (fun si row =>
                 drawn_as_specified gammas c si (fst row) (snd row))
              s rows.
Proof using choice_ok.
  intros Hc Hcz Hs. induction Hs as [|si s Hsi _ IH];
    intros pre_q junk_q pre_m junk_m rs Hq Hm Hpre.
  - destruct junk_q, junk_m; try discriminate.
    exists [], rs. split; [reflexivity | constructor].
  - destruct junk_q as [|jq junk_q], junk_m as [|jm junk_m];
      try discriminate.
    simpl in Hq, Hm.
    destruct (choice_ok (length c) rs Hc)
      as (k & k1 & k2 & rs1 & Hch & Hk & Hk1 & Hk2 & Hd1 & Hd2 & Hd3).
    destruct (lookup_lt_is_Some_2 c k Hk) as [z Hz].
    destruct (lookup_lt_is_Some_2 c k1 Hk1) as [z1 Hz1].
    destruct (lookup_lt_is_Some_2 c k2 Hk2) as [z2 Hz2].
    pose proof (Forall_lookup_1 _ _ _ _ Hcz Hz) as Hlz. simpl in Hlz.
    set (qi := candidate gammas si z z1 z2).
    set (mi := log_norm_difference ln si z qi).
    specialize (IH (pre_q ++ [qi]) junk_q (pre_m ++ [mi]) junk_m rs1).
    destruct IH as (rows & rs' & Hrun & Hrows);
      [lia | lia | rewrite !length_app; simpl; lia |].
    exists ((qi, z) :: rows), rs'. split.
    + cbn [for_enumerate step]. rewrite Hch. cbn [bind].
      rewrite Hz, Hz1, Hz2.
      unfold Ensemble.setrow. fold qi.
      rewrite length_app. cbn [length].
      destruct (Nat.ltb_spec (length pre_q) (length pre_q + S (length junk_q)));
        [|lia].
      unfold qi at 1. rewrite (length_candidate si z z1 z2 Hsi Hlz).
      rewrite Nat.eqb_refl. cbn [bind].
      rewrite insert_app_r_alt by lia.
      rewrite Nat.sub_diag. cbn [insert list_insert].
      rewrite (list_lookup_middle pre_q junk_q qi (length pre_q) eq_refl).
      cbn [default from_option id].
      fold (log_norm_difference ln si z qi). fold mi.
      rewrite (EnsembleFacts.setitem_lt_app pre_m jm junk_m) by lia.
      cbn [bind].
      rewrite !length_app in Hrun. simpl in Hrun.
      replace (length pre_q + 1)%nat with (S (length pre_q)) in Hrun by lia.
      rewrite <- !app_assoc in Hrun. simpl in Hrun. exact Hrun.
    + constructor; [|exact Hrows].
      exists k, k1, k2, z1, z2. cbn [fst snd].
      repeat split; assumption.
Qed.

Lemma smul_zip_with {A B : Type} (g : A -> B -> float) (coef : float)
    (l : list A) (k : list B) :
  smul coef (zip_with g l k) = zip_with (fun a b => coef * g a b) l k.
Proof using Type.
  revert k. induction l as [|a l IH]; intros [|b k]; simpl;
    try reflexivity.
  f_equal. apply IH.
Qed.

End Move.
End DESnookerFacts.

(** ** The backends *)

Module BackendFacts.
Local Open Scope Z_scope.

Lemma length_concat_replicate {A : Type} (n : nat) (l : list A) :
  length (concat (replicate n l)) = (n * length l)%nat.
Proof.
  induction n as [|n IH]; simpl; [reflexivity|].
  rewrite length_app, IH. lia.
Qed.

Lemma length_np_resize {A : Type} (zero : A) (a : list A) (l : nat) :
  length (np_resize zero a l) = l.
Proof.
  unfold np_resize. destruct a as [|x a].
  - apply length_replicate.
  - rewrite length_take, length_concat_replicate. simpl. nia.
Qed.

Lemma length_h5_resize {A : Type} (fill : A) (a : list A) (l : nat) :
  length (h5_resize fill a l) = l.
Proof.
  unfold h5_resize. rewrite length_app, length_take, length_replicate. lia.
Qed.

(** [DefaultBackend.extend(n)] sets the size, and the room in the
    arrays, to [niter + n]. *)
Lemma default_extend_size (uninit : float) (n : Z) (b : DefaultBackend.t)
    (k d : nat) :
  DefaultBackend.nwalkers b = Some k ->
  DefaultBackend.ndim b = Some d ->
  0 <= DefaultBackend.niter b + n ->
  exists b',
    DefaultBackend.extend uninit n b = Ok b' /\
    DefaultBackend.niter b' = DefaultBackend.niter b /\
    DefaultBackend.size b' = DefaultBackend.niter b + n /\
    Z.of_nat (DefaultBackend.capacity b') = DefaultBackend.niter b + n.
Proof.
  intros Hk Hd Hn. unfold DefaultBackend.extend. rewrite Hk, Hd.
  destruct (Z.ltb_spec (DefaultBackend.niter b + n) 0); [lia|].
  destruct (DefaultBackend._coords b) as [c|]; eexists; split;
    try reflexivity; unfold DefaultBackend.capacity; simpl;
    rewrite ?length_np_resize, ?length_replicate; repeat split; lia.
Qed.

(** The first [HDFBackend.extend(n)] makes a group of size [n] with
    nothing committed. *)
Lemma hdf_first_extend_size (spec : list string) (n : Z)
    (b : HDFBackend.t) (k d : nat) :
  HDFBackend.initialized b = false ->
  HDFBackend.nwalkers b = Some k ->
  HDFBackend.ndim b = Some d ->
  0 <= n ->
  exists b',
    HDFBackend.extend spec n b = Ok b' /\
    HDFBackend.committed b' = 0 /\
    HDFBackend.stored_size b' = n /\
    Z.of_nat (HDFBackend.capacity b') = n.
Proof.
  intros Hi Hk Hd Hn. unfold HDFBackend.extend. rewrite Hk, Hd, Hi.
  cbn [negb]. destruct (Z.ltb_spec n 0); [lia|].
  eexists; split; [reflexivity|].
  unfold HDFBackend.committed, HDFBackend.stored_size, HDFBackend.capacity.
  simpl. rewrite length_replicate. repeat split; lia.
Qed.

(** A later [HDFBackend.extend(n)] makes room for [niter + n] iterations
    in the datasets and writes the old size back. *)
Lemma hdf_later_extend_size (n : Z) (b : HDFBackend.t)
    (g : HDFBackend.group) (k d : nat) :
  HDFBackend.initialized b = true ->
  HDFBackend.file b = Some g ->
  HDFBackend.nwalkers b = Some k ->
  HDFBackend.ndim b = Some d ->
  0 <= HDFBackend.niter g + n ->
  exists b',
    HDFBackend.extend [] n b = Ok b' /\
    HDFBackend.committed b' = HDFBackend.niter g /\
    HDFBackend.stored_size b' = HDFBackend.size g /\
    Z.of_nat (HDFBackend.capacity b') = HDFBackend.niter g + n.
Proof.
  intros Hi Hf Hk Hd Hn. unfold HDFBackend.extend.
  rewrite Hk, Hd, Hi, Hf. cbn [negb].
  destruct (Z.ltb_spec (HDFBackend.niter g + n) 0); [lia|].
  eexists; split; [reflexivity|].
  unfold HDFBackend.committed, HDFBackend.stored_size, HDFBackend.capacity.
  simpl. rewrite length_h5_resize. repeat split; lia.
Qed.

(** C9, where the code departs from it: both backends, with two walkers
    in one dimension, are extended by 2 and then by 5 with nothing
    recorded in between.  The in-memory backend ends with size 5 and room
    for 5 iterations, and after two records it needs no extension and
    keeps its 5 rows through the third.  The HDF backend ends with room
    for 5 iterations but its stored size is still 2: after two records
    its test asks for another extension, and the third record cuts the
    datasets to 3 rows. *)
Theorem hdf_extend_leaves_size_stale :
  (exists b b2 b3,
      Examples.default_extended_twice = Ok b /\
      DefaultBackend.niter b = 0 /\
      DefaultBackend.size b = 5 /\
      DefaultBackend.capacity b = 5%nat /\
      Examples.default_recorded_twice = Ok b2 /\
      DefaultBackend.niter b2 = 2 /\
      DefaultBackend.must_extend b2 = false /\
      Examples.default_recorded_thrice = Ok b3 /\
      DefaultBackend.capacity b3 = 5%nat) /\
  (exists b b2 b3,
      Examples.hdf_extended_twice = Ok b /\
      HDFBackend.committed b = 0 /\
      HDFBackend.stored_size b = 2 /\
      HDFBackend.capacity b = 5%nat /\
      Examples.hdf_recorded_twice = Ok b2 /\
      HDFBackend.committed b2 = 2 /\
      HDFBackend.must_extend b2 = true /\
      Examples.hdf_recorded_thrice = Ok b3 /\
      HDFBackend.capacity b3 = 3%nat).
Proof.
  split; eexists _, _, _; vm_compute; repeat split; reflexivity.
Qed.
End BackendFacts.

(** ** The theorems at the worked instances *)

Module Witnesses.
Import Numeric Random Examples.
Local Open Scope float_scope.

(** Two uniform walkers inside the box make an ensemble; with one of
    them outside, construction raises.  [update] takes over a feasible
    walker a move has installed and raises on one whose likelihood is
    NaN. *)
Lemma ensemble_finite_invariant_witness :
  (exists e,
      Ensemble.__init__ uniform_walker (fun _ => nan)
        (Ensemble.Rows [[0.5]; [-0.5]]) = Ok e /\
      all_finite (Ensemble._lnprior e) = true /\
      all_finite (Ensemble._lnlike e) = true) /\
  Ensemble.__init__ uniform_walker (fun _ => nan)
    (Ensemble.Rows [[0.5]; [2]])
  = Error (ValueError "Invalid (un-allowed) initial coordinates") /\
  (exists e,
      Ensemble.update moved_ensemble = Ok e /\
      all_finite2 (Ensemble._coords e) = true /\
      all_finite (Ensemble._lnprior e) = true /\
      all_finite (Ensemble._lnlike e) = true) /\
  Ensemble.update spoiled_ensemble
  = Error (RuntimeError "An invalid proposal was accepted").
Proof.
  destruct (EnsembleFacts.ensemble_finite_invariant
              uniform_walker (fun _ => nan)) as (H1 & H2 & H3 & H4).
  split; [|split; [|split]].
  - specialize (H1 (Ensemble.Rows [[0.5]; [-0.5]])).
    destruct (Ensemble.__init__ _ _ _) as [e|err] eqn:He;
      [|vm_compute in He; discriminate He].
    exists e. destruct (H1 e eq_refl) as (_ & _ & _ & Hp & Hl). auto.
  - eapply (H2 _ 2%nat 1%nat); [reflexivity | vm_compute; reflexivity |].
    right. left. reflexivity.
  - specialize (H3 moved_ensemble).
    destruct (Ensemble.update moved_ensemble) as [e|err] eqn:He;
      [|vm_compute in He; discriminate He].
    exists e. destruct (H3 e eq_refl) as (_ & _ & Hc & Hp & Hl). auto.
  - apply H4.
    + unfold Ensemble.wf. repeat split; repeat constructor.
    + right. left. reflexivity.
Defined.

Lemma rotating_choice_ok :
  DESnooker.draws_without_replacement rotating_choice.
Proof.
  intros n rs Hn. unfold rotating_choice.
  destruct (Nat.leb_spec 3 n); [|lia].
  eexists _, _, _, _. split; [reflexivity|].
  assert (Hshift : forall p d, (0 < d < n)%nat ->
                     (p mod n <> (p + d) mod n)%nat).
  { intros p d Hd E.
    pose proof (Nat.div_mod_eq p n) as E1.
    pose proof (Nat.div_mod_eq (p + d) n) as E2.
    rewrite <- E in E2.
    set (a := (p / n)%nat) in *. set (b := ((p + d) / n)%nat) in *.
    destruct (le_lt_dec b a); nia. }
  rewrite Nat.add_0_r.
  repeat split; try (apply Nat.mod_upper_bound; lia);
    try (apply Hshift; lia).
  replace (pos rs + 2)%nat with (pos rs + 1 + 1)%nat by lia.
  apply Hshift; lia.
Qed.


(** The run into the pole: the proposal sits at the origin, where the
    log-probability is plus infinity, and is marked accepted. *)
Lemma hmc_accepts_infinite_log_probability_witness :
  snd pole_call = 0 /\
  HMC.State.accepted
    (fst (HMC.accept ln pole_start pole_call (seeded [0.5]))) = true.
Proof.
  apply (HMCFacts.hmc_accepts_infinite_log_probability
           pole_log_prob pole_grad (HMC._hmc_vector (HMC.Zero_d 1)) 1 1 ln
           pole_start pole_start [0] (seeded [0.5]));
    vm_compute; reflexivity.
Defined.

(** The Metropolis-Hastings move on two normal walkers. *)
Lemma mh_update_protocol_witness :
  let drawn := walk_proposal mh_stream (MH.ens_coords mh_walkers) in
  let states := map mh_state (fst (fst drawn)) in
  let decided :=
    MH.accept_as_specified exp
      (zip (zip states (MH.ens_walkers mh_walkers)) (snd (fst drawn)))
      (snd drawn) in
  let marked := zip_with MH.mark (fst decided) states in
  MH.update exp (Some 1%nat) walk_proposal mh_walkers mh_stream
  = ([MH.Propose (fst (fst drawn)); MH.Update marked],
     do ensemble <- MH.ens_update mh_walkers marked;
     Ok (ensemble, snd decided)) /\
  (forall lnpdiff rs',
      MH.accepts exp lnpdiff rs'
      = ((0 <? lnpdiff) || (fst (rand rs') <? exp lnpdiff),
         if 0 <? lnpdiff then rs' else snd (rand rs'))) /\
  (Forall (fun s => MH.State.accepted s = false) states ->
   map MH.State.accepted marked = fst decided).
Proof.
  intros drawn states decided marked.
  apply (MHFacts.mh_update_protocol exp (Some 1%nat) walk_proposal
           mh_walkers mh_stream states).
  - reflexivity.
  - vm_compute. reflexivity.
  - vm_compute. lia.
  - vm_compute. lia.
Defined.
End Witnesses.

(** ** The definitions run on the worked instances *)

Module Checks.
Import Numeric Random Examples.
Local Open Scope float_scope.

(** The central difference of the squared norm with step one half is
    exact, and the argument comes back as it went in. *)
Example numgrad_run :
  Numgrad.numerical_gradient_2 (fun x => dot x x) 0.5 [1; 2; 3]
  = ([1; 2; 3], [2; 4; 6]).
Proof. reflexivity. Qed.

Example numgrad_forward_run :
  Numgrad.numerical_gradient_1 (fun x => dot x x) 0.5 [1; 2; 3]
  = ([1; 2; 3], [2.5; 4.5; 6.5]).
Proof. reflexivity. Qed.

(** Two leapfrog steps of size one half on the standard normal from
    position 1 at rest. *)
Example leapfrog_run :
  HMC.integrate gauss_log_prob gauss_grad (HMC._hmc_vector (HMC.Zero_d 1)) 0.5 2
    {| HMC.State.coords := [1]; HMC.State.lnprob := -0.5;
       HMC.State.grad_lnprob := None; HMC.State.accepted := false |} [0]
  = ({| HMC.State.coords := [0.53125]; HMC.State.lnprob := -0.14111328125;
        HMC.State.grad_lnprob := Some [-0.53125];
        HMC.State.accepted := false |},
     [0.8203125]).
Proof. reflexivity. Qed.

(** The no-U-turn move with depth limit 2 on the flat density. *)
Example nuts_run :
  exists st rs,
    nuts_call 2 nuts_start [1]
      (seeded [0.5; 0.75; 0.75; 0.75; 0.75; 0.75])
    = Ok (st, neg_infinity, rs) /\
    NUTS.State.coords st = [1] /\
    NUTS.State.accepted st = true /\
    NUTS.State._nuts_steps st = Some 1%nat /\
    pos rs = 6%nat.
Proof. eexists _, _. vm_compute. repeat split; reflexivity. Qed.

(** The Metropolis-Hastings move on two walkers: the first candidate is
    uphill and taken without a draw, the second is downhill and its
    draw, 0.99, is too high. *)
Example mh_run :
  exists rs,
    MH.update exp (Some 1%nat) walk_proposal mh_walkers mh_stream
    = ([MH.Propose [[0.75]; [0.25]];
        MH.Update
          [MH.State.set_accepted true (mh_state [0.75]); mh_state [0.25]]],
       Ok ([MH.State.set_accepted true (mh_state [0.75]); mh_state [0]], rs))
    /\ pos rs = 3%nat.
Proof. eexists. vm_compute. split; reflexivity. Qed.

(** A move of another dimension is refused before any call is made. *)
Example mh_dimension_mismatch :
  MH.update exp (Some 3%nat) walk_proposal mh_walkers mh_stream
  = ([], Error (ValueError "Dimension mismatch in proposal")).
Proof. reflexivity. Qed.

(** The first row of the snooker proposal: the members drawn are
    [[1; 0]], [[0; 2]] and [[3; 1]]. *)
Example snooker_first_candidate :
  DESnooker.candidate 1.7 [0; 0] [1; 0] [0; 2] [3; 1] = [-5.1; 0].
Proof. vm_compute. reflexivity. Qed.
End Checks.

(** * Further properties of the code *)

(** ** The values of the numerical gradients *)

Module NumgradValues.
Import Numeric Numgrad.
Local Open Scope float_scope.

Section Values.
Variable f : vec -> float.
Variable eps : float.

(** A loop that leaves [x] alone and stores [F i v] at each index [i] it
    visits fills the visited stretch of [g] and nothing else. *)
Lemma fill_lookup (step : vec * vec -> nat -> vec * vec)
    (F : nat -> float -> float) (x : vec) :
  (forall g i v, x !! i = Some v -> step (x, g) i = (x, <[i := F i v]> g)) ->
  forall (m k : nat) (g : vec),
    length g = length x -> (k + m <= length x)%nat ->
    fst (foldl step (x, g) (seq k m)) = x /\
    length (snd (foldl step (x, g) (seq k m))) = length x /\
    forall j,
      snd (foldl step (x, g) (seq k m)) !! j
      = if decide (k <= j < k + m)%nat then F j <$> (x !! j) else g !! j.
Proof.
  intros Hstep m. induction m as [|m IH]; intros k g Hg Hk.
  - simpl. repeat split; try assumption.
    intros j. destruct (decide (k <= j < k + 0)%nat); [lia | reflexivity].
  - cbn [seq foldl].
    destruct (lookup_lt_is_Some_2 x k ltac:(lia)) as [v Hv].
    rewrite (Hstep g k v Hv).
    destruct (IH (S k) (<[k := F k v]> g)) as (Hx & Hl & Hj);
      [now rewrite length_insert | lia |].
    repeat split; try assumption.
    intros j. rewrite Hj.
    destruct (decide (S k <= j < S k + m)%nat) as [Hin | Hout].
    + destruct (decide (k <= j < k + S m)%nat); [reflexivity | lia].
    + destruct (decide (j = k)) as [-> | Hne].
      * rewrite list_lookup_insert_eq by lia. rewrite Hv.
        destruct (decide (k <= k < k + S m)%nat); [reflexivity | lia].
      * rewrite list_lookup_insert_ne by congruence.
        destruct (decide (k <= j < k + S m)%nat); [lia | reflexivity].
Qed.

Lemma fill_all (step : vec * vec -> nat -> vec * vec)
    (F : nat -> float -> float) (x : vec) :
  (forall g i v, x !! i = Some v -> step (x, g) i = (x, <[i := F i v]> g)) ->
  snd (foldl step (x, zeros (length x)) (seq 0 (length x))) = imap F x.
Proof.
  intros Hstep.
  destruct (fill_lookup step F x Hstep (length x) 0 (zeros (length x)))
    as (_ & Hl & Hj); [apply length_replicate | lia |].
  apply list_eq. intros j. rewrite Hj, list_lookup_imap.
  destruct (decide (0 <= j < 0 + length x)%nat) as [Hin | Hout];
    [reflexivity|].
  rewrite (lookup_ge_None_2 x j) by lia.
  apply lookup_ge_None_2. unfold zeros. rewrite length_replicate. lia.
Qed.

Lemma step_1_value y0 x g i v :
  x !! i = Some v ->
  step_1 f eps y0 (x, g) i
  = (x, <[i := (f (<[i := v + eps]> x) - y0) / eps]> g).
Proof.
  intros Hv. unfold step_1. rewrite Hv.
  now rewrite (NumgradFacts.restore x i v (v + eps) Hv).
Qed.

Lemma step_2_value x g i v :
  x !! i = Some v ->
  step_2 f eps (x, g) i
  = (x, <[i := 0.5 * (f (<[i := v + eps]> x) - f (<[i := v - eps]> x))
                 / eps]> g).
Proof.
  intros Hv. unfold step_2. rewrite Hv.
  rewrite !list_insert_insert_eq.
  now rewrite (list_insert_id x i v Hv).
Qed.

(** X1: [numerical_gradient_1] returns one entry per coordinate, the
    forward difference [(f(x + eps e_i) - f(x)) / eps] in which only the
    coordinate [i] is moved and every other one has its original value;
    on the empty array it returns the empty gradient. *)
Theorem numerical_gradient_1_values (x : vec) :
  snd (numerical_gradient_1 f eps x)
  = imap (fun i v => (f (<[i := v + eps]> x) - f x) / eps) x.
Proof.
  unfold numerical_gradient_1.
  apply (fill_all (step_1 f eps (f x))
           (fun i v => (f (<[i := v + eps]> x) - f x) / eps)).
  intros g i v Hv. now apply step_1_value.
Qed.

(** X2: [numerical_gradient_2] returns one entry per coordinate, the
    central difference [0.5 * (f(x + eps e_i) - f(x - eps e_i)) / eps]
    with every other coordinate at its original value. *)
Theorem numerical_gradient_2_values (x : vec) :
  snd (numerical_gradient_2 f eps x)
  = imap (fun i v =>
            0.5 * (f (<[i := v + eps]> x) - f (<[i := v - eps]> x)) / eps)
         x.
Proof.
  unfold numerical_gradient_2.
  apply (fill_all (step_2 f eps)
           (fun i v =>
              0.5 * (f (<[i := v + eps]> x) - f (<[i := v - eps]> x)) / eps)).
  intros g i v Hv. now apply step_2_value.
Qed.
End Values.
End NumgradValues.

(** ** More on the ensemble *)

Module EnsembleMore.
Import Numeric Ensemble EnsembleOps.

(** X3: what [Ensemble.__init__] returns or raises does not depend on what
    [np.empty] left in the arrays it allocates: every entry is written
    before it is read. *)
Theorem init_ignores_uninitialised_memory
    (propose : vec -> result Walker.t) (u1 u2 : nat -> float)
    (coords : array_like) :
  __init__ propose u1 coords = __init__ propose u2 coords.
Proof.
  destruct (shape2 coords) as [[n d]|] eqn:Hs.
  - destruct (pool_map propose (rows_of coords)) as [ws|err] eqn:Hw.
    + now rewrite !(EnsembleFacts.init_run _ _ _ _ _ _ Hs Hw).
    + unfold __init__. now rewrite Hs, Hw.
  - unfold __init__. now rewrite Hs.
Qed.

Lemma shape2_rows coords n d :
  shape2 coords = Some (n, d) ->
  n = length (rows_of coords) /\
  Forall (fun r => length r = d) (rows_of coords).
Proof.
  unfold shape2. destruct coords as [[|r rs]|d']; [discriminate| |].
  - destruct (forallb _ rs) eqn:Hall; [|discriminate].
    intros [= <- <-]. split; [reflexivity|].
    constructor; [reflexivity|].
    apply Forall_forall. intros r' Hr'.
    rewrite forallb_forall in Hall.
    apply Nat.eqb_eq, Hall. now apply list_elem_of_In.
  - intros [= <- <-]. split; [reflexivity | constructor].
Qed.

(** X4: an ensemble that [Ensemble.__init__] returns has the shape of the
    array it was given: [nwalkers] rows of [ndim] entries each, kept as
    they were given, one walker and one stored log-prior and
    log-likelihood per row, and every acceptance flag set.  The array may
    have no rows: one of shape [(0, d)] gives an ensemble of dimension [d]
    without walkers, whatever the walker class, while the empty sequence,
    which has one axis, is refused. *)
Theorem init_shapes
    (propose : vec -> result Walker.t) (uninit : nat -> float) :
  (forall (coords : array_like) (e : Ensemble.t),
      __init__ propose uninit coords = Ok e ->
      shape2 coords = Some (nwalkers e, ndim e) /\
      _coords e = rows_of coords /\
      nwalkers e = length (rows_of coords) /\
      Forall (fun r => length r = ndim e) (rows_of coords) /\
      length (walkers e) = nwalkers e /\
      length (_lnprior e) = nwalkers e /\
      length (_lnlike e) = nwalkers e /\
      acceptance e = replicate (nwalkers e) true) /\
  (forall d : nat,
      __init__ propose uninit (NoRows d)
      = Ok {| nwalkers := 0; ndim := d; walkers := [];
              _coords := []; _lnprior := []; _lnlike := [];
              acceptance := [] |}) /\
  __init__ propose uninit (Rows [])
  = Error (ValueError "Invalid ensemble coordinate dimensions").
Proof.
  split; [|split; reflexivity].
  intros coords e H.
  destruct (shape2 coords) as [[n d]|] eqn:Hs;
    [|unfold __init__ in H; rewrite Hs in H; discriminate].
  destruct (pool_map propose (rows_of coords)) as [ws|err] eqn:Hw;
    [|unfold __init__ in H; rewrite Hs, Hw in H; discriminate].
  rewrite (EnsembleFacts.init_run _ _ _ _ _ _ Hs Hw) in H.
  destruct (forallb walker_feasible ws); [|discriminate].
  injection H as <-. cbn.
  destruct (shape2_rows _ _ _ Hs) as (Hn & Hr).
  pose proof (EnsembleFacts.pool_map_length _ _ _ Hw) as Hl.
  rewrite !length_map. repeat split; try assumption; lia.
Qed.

(** X5: when [Ensemble.update] returns on a well-shaped ensemble, the
    stored coordinates, log-priors and log-likelihoods are those of the
    walkers, row by row, the ensemble is still well shaped, and a second
    [update] changes nothing. *)
Theorem update_stores_walkers_and_is_idempotent (e e' : Ensemble.t) :
  wf e ->
  update e = Ok e' ->
  _coords e' = map Walker.coords (walkers e) /\
  _lnprior e' = map Walker.lnprior (walkers e) /\
  _lnlike e' = map Walker.lnlike (walkers e) /\
  wf e' /\
  update e' = Ok e'.
Proof.
  intros Hwf H. pose proof Hwf as (Hw & Hc & Hp & Hl & Hd).
  rewrite (EnsembleFacts.update_run e Hwf) in H.
  destruct (forallb walker_finite (walkers e)) eqn:Hfin; [|discriminate].
  injection H as <-. cbn.
  assert (Hwf' : wf {| nwalkers := nwalkers e; ndim := ndim e;
                       walkers := walkers e;
                       _coords := map Walker.coords (walkers e);
                       _lnprior := map Walker.lnprior (walkers e);
                       _lnlike := map Walker.lnlike (walkers e);
                       acceptance := acceptance e |}).
  { unfold wf. cbn. rewrite !length_map. auto. }
  split; [reflexivity|]. split; [reflexivity|]. split; [reflexivity|].
  split; [exact Hwf'|].
  rewrite (EnsembleFacts.update_run _ Hwf'). cbn. now rewrite Hfin.
Qed.

Lemma pool_map_Forall2 {A B : Type} (f : A -> result B) (xs : list A)
    (ys : list B) :
  pool_map f xs = Ok ys <-> Forall2 (fun x y => f x = Ok y) xs ys.
Proof.
  revert ys. induction xs as [|x xs IH]; intros ys; simpl.
  - split.
    + intros [= <-]. constructor.
    + intros H. now inversion H.
  - split.
    + intros H. destruct (f x) as [y|err] eqn:Hy; [|discriminate].
      cbn [bind] in H.
      destruct (pool_map f xs) as [ys'|err] eqn:Hys; [|discriminate].
      injection H as <-. constructor; [assumption|]. now apply IH.
    + intros H. inversion H as [|x' y xs' ys' Hy Hrest]; subst.
      rewrite Hy. cbn [bind]. apply IH in Hrest. now rewrite Hrest.
Qed.

(** X6: [Ensemble.propose] returns, in order, what each walker of the
    slice proposes at the candidate row of its position, and nothing else:
    walkers and rows are paired up to the shorter of the two, so surplus
    rows, or surplus walkers, are silently left out. *)
Theorem propose_pairs_walkers_with_rows
    (walker_propose : Walker.t -> vec -> result Walker.t)
    (e : Ensemble.t) (coords : matrix) (sl : pyslice)
    (states : list Walker.t) :
  (propose walker_propose e coords sl = Ok states <->
   Forall2 (fun (wc : Walker.t * vec) s =>
              walker_propose (fst wc) (snd wc) = Ok s)
           (zip (getslice sl (walkers e)) coords) states) /\
  (propose walker_propose e coords sl = Ok states ->
   length states
   = Nat.min (length (getslice sl (walkers e))) (length coords)).
Proof.
  assert (Hiff :
    propose walker_propose e coords sl = Ok states <->
    Forall2 (fun (wc : Walker.t * vec) s =>
               walker_propose (fst wc) (snd wc) = Ok s)
            (zip (getslice sl (walkers e)) coords) states).
  { unfold propose. rewrite pool_map_Forall2.
    split; intros H; eapply Forall2_impl; try exact H;
      intros [w c] s; exact (fun x => x). }
  split; [exact Hiff|].
  intros H. apply Hiff in H. apply Forall2_length in H.
  rewrite <- H. apply length_zip_with.
Qed.

Section Pickle.
Variable attr : Type.
Variable DefaultPool : attr.

(** X7: [Ensemble.__getstate__] pops the pool from the attribute
    dictionary of the ensemble itself: afterwards the live object has no
    [pool] and keeps every other attribute, and the state returned is that
    same dictionary.  [__setstate__] on the state gives back the
    attributes of the original with a fresh default pool in place of its
    own. *)
Theorem getstate_strips_pool_of_live_object (self : gmap string attr) :
  let state := fst (__getstate__ attr self) in
  let after := snd (__getstate__ attr self) in
  after = state /\
  after !! "pool"%string = None /\
  (forall k, k <> "pool"%string -> after !! k = self !! k) /\
  __setstate__ attr DefaultPool state
  = <["pool"%string := DefaultPool]> self.
Proof.
  cbn. repeat split.
  - apply lookup_delete_eq.
  - intros k Hk. now apply lookup_delete_ne.
  - unfold __setstate__. apply insert_delete_eq.
Qed.
End Pickle.
End EnsembleMore.

(** ** More on the Hamiltonian move *)

Module HMCMore.
Import Numeric Random HMC.
Local Open Scope float_scope.

Section Acceptance.
Variable ln : float -> float.

(** X8: the loop of [HamiltonianMove.update] over the results of the
    integrator hands on one state per walker, up to the shorter of the
    two lists, consumes exactly one uniform draw per walker in walker
    order, and changes nothing of a state but its [accepted] flag, which
    it sets when the logarithm of the walker's draw is below
    [factor + new - old]. *)
Theorem accept_all_draws_in_walker_order (olds : list State.t) :
  forall (res : list (State.t * float)) (rs : RandomState),
    accept_all ln olds res rs
    = (imap (fun i (row : State.t * (State.t * float)) =>
               if ln (draws rs (pos rs + i))
                  <? snd (snd row) + State.lnprob (fst (snd row))
                     - State.lnprob (fst row)
               then State.set_accepted true (fst (snd row))
               else fst (snd row))
            (zip olds res),
       {| draws := draws rs;
          pos := pos rs + Nat.min (length olds) (length res) |}).
Proof.
  induction olds as [|old olds IH]; intros res rs.
  - simpl. destruct rs as [d p]. cbn. now rewrite Nat.add_0_r.
  - destruct res as [|[state factor] res].
    + simpl. destruct rs as [d p]. cbn. now rewrite Nat.add_0_r.
    + cbn [accept_all accept rand length zip zip_with].
      set (rs1 := {| draws := draws rs; pos := S (pos rs) |}).
      assert (Hone :
        (if ln (draws rs (pos rs))
            <? factor + State.lnprob state - State.lnprob old
         then (State.set_accepted true state, rs1)
         else (state, rs1))
        = ((if ln (draws rs (pos rs + 0))
               <? factor + State.lnprob state - State.lnprob old
            then State.set_accepted true state
            else state), rs1)).
      { rewrite Nat.add_0_r. now destruct (_ <? _). }
      rewrite Hone, (IH res rs1). cbn [imap fst snd]. f_equal.
      * f_equal. apply imap_ext. intros i [o [s f]] _.
        unfold rs1, compose. cbn [draws pos fst snd].
        now replace (S (pos rs) + i)%nat with (pos rs + S i)%nat by lia.
      * unfold rs1. cbn [draws pos Nat.min]. f_equal. lia.
Qed.
End Acceptance.

Section Integrator.
Variable log_prob : vec -> float.
Variable grad_log_prob : vec -> vec.
Variable cov : metric.
Variable epsilon : float.

(** X9: with a step count of zero or less the loop of
    [_hmc_wrapper.__call__] is not entered: the proposal sits at the
    current position, and the momentum has taken the two half steps
    there and is negated. *)
Theorem integrate_without_steps
    (nsteps : Z) (current_state : State.t) (current_p : vec) :
  (nsteps <= 0)%Z ->
  integrate log_prob grad_log_prob cov epsilon nsteps current_state current_p
  = (get_state log_prob grad_log_prob (State.coords current_state),
     vneg (vadd (vadd current_p
                   (smul (0.5 * epsilon)
                      (initial_gradient grad_log_prob current_state)))
             (smul (0.5 * epsilon)
                (grad_log_prob (State.coords current_state))))).
Proof.
  intros Hn. unfold integrate, initial_gradient.
  replace (Z.to_nat nsteps) with 0%nat by lia. cbn [seq foldl].
  unfold State.grad at 1.
  destruct (State.grad_lnprob current_state) eqn:Hg; cbn.
  - now rewrite Hg.
  - reflexivity.
Qed.
End Integrator.

Section Leapfrog.
Variable log_prob : vec -> float.
Variable grad_log_prob : vec -> vec.
Variable cov : metric.

(** X10: the leapfrog step of the no-U-turn wrapper is the integrator of
    the Hamiltonian wrapper run for one step, before its momentum flip:
    from the same position, momentum and gradient both arrive at the same
    position with the same log-probability and gradient, and the momentum
    of the one is the negated momentum of the other. *)
Theorem nuts_leapfrog_is_one_hmc_step
    (eps : float) (s : NUTS.State.t) (current_state : State.t) :
  State.coords current_state = NUTS.State.coords s ->
  initial_gradient grad_log_prob current_state
  = NUTS.State.grad_log_probability s ->
  let stepped := NUTS.leapfrog log_prob grad_log_prob cov s eps in
  let integrated :=
    integrate log_prob grad_log_prob cov eps 1 current_state
      (NUTS.State._momentum s) in
  State.coords (fst integrated) = NUTS.State.coords stepped /\
  State.lnprob (fst integrated) = NUTS.State.log_probability stepped /\
  State.grad_lnprob (fst integrated)
  = Some (NUTS.State.grad_log_probability stepped) /\
  snd integrated = vneg (NUTS.State._momentum stepped).
Proof.
  intros Hc Hg. cbv zeta.
  unfold integrate, NUTS.leapfrog. cbn [Z.to_nat Pos.to_nat Pos.iter_op seq foldl leap].
  change (Z.of_nat 0 <? 1 - 1)%Z with false. cbn iota.
  assert (Hgrad : State.grad
            (match State.grad_lnprob current_state with
             | Some _ => current_state
             | None => get_state log_prob grad_log_prob
                         (State.coords current_state)
             end)
          = NUTS.State.grad_log_probability s).
  { rewrite <- Hg. unfold initial_gradient, State.grad.
    destruct (State.grad_lnprob current_state) eqn:Hcur; cbn;
      [now rewrite Hcur | reflexivity]. }
  rewrite Hgrad, Hc. cbn. repeat split.
Qed.
End Leapfrog.
End HMCMore.

(** ** The splits of the Hamiltonian move *)

Module HMCSplitFacts.
Import HMCSplit.

Lemma labels_below (n m : nat) :
  (0 < m)%nat -> Forall (fun x => (x < m)%nat) (labels n m).
Proof.
  intros Hm. unfold labels. apply Forall_forall. intros x Hx.
  apply list_elem_of_fmap in Hx as (k & -> & _).
  destruct m as [|m]; [lia|]. apply Nat.mod_upper_bound. lia.
Qed.

Lemma labels_lookup_small (n m i : nat) :
  (i < m)%nat -> (i < n)%nat -> labels n m !! i = Some i.
Proof.
  intros Hm Hn. unfold labels. rewrite list_lookup_fmap.
  rewrite lookup_seq_lt by lia. cbn.
  destruct m as [|m]; [lia|]. now rewrite Nat.mod_small by lia.
Qed.

Lemma elem_of_selected (mask : list bool) (p : nat) :
  p ∈ selected mask <-> mask !! p = Some true.
Proof.
  unfold selected. rewrite list_elem_of_fmap. split.
  - intros ([p' b] & -> & Hin). apply list_elem_of_filter in Hin as [Hb Hin].
    cbn in Hb. subst b.
    apply list_elem_of_lookup in Hin as [j Hj].
    apply lookup_zip_with_Some in Hj as (x & y & Heq & Hx & Hy).
    injection Heq as <- <-.
    apply lookup_seq in Hx as [-> _]. exact Hy.
  - intros Hp. exists (p, true). split; [reflexivity|].
    apply list_elem_of_filter. split; [reflexivity|].
    apply list_elem_of_lookup. exists p.
    apply lookup_zip_with_Some. exists p, true. repeat split; [|exact Hp].
    apply lookup_seq. split; [reflexivity|].
    now apply lookup_lt_Some in Hp.
Qed.

(** X11: however the labels are shuffled, the masks of
    [HamiltonianMove.update] partition the walkers: with a positive number
    of splits every walker is selected by the mask [S1] of exactly one
    split, and [S2] selects exactly the walkers [S1] does not; with no
    more splits than walkers no split is empty; and with a single split
    the complement is empty. *)
Theorem splits_partition_the_walkers
    (nwalkers nsplits : nat) (inds : list nat) :
  (0 < nsplits)%nat ->
  Permutation inds (labels nwalkers nsplits) ->
  (forall p, (p < nwalkers)%nat ->
     exists i, (i < nsplits)%nat /\ p ∈ selected (S1 i inds) /\
               forall i', p ∈ selected (S1 i' inds) -> i' = i) /\
  (forall i p, (p < nwalkers)%nat ->
     p ∈ selected (S2 i inds) <-> ~ p ∈ selected (S1 i inds)) /\
  ((nsplits <= nwalkers)%nat ->
   forall i, (i < nsplits)%nat -> selected (S1 i inds) <> []) /\
  (nsplits = 1%nat -> selected (S2 0 inds) = []).
Proof.
  intros Hm Hperm.
  assert (Hlen : length inds = nwalkers).
  { rewrite (Permutation_length Hperm). unfold labels.
    now rewrite length_map, length_seq. }
  assert (Hbelow : Forall (fun x => (x < nsplits)%nat) inds).
  { eapply Permutation_Forall; [symmetry; exact Hperm|].
    now apply labels_below. }
  assert (Hmask1 : forall i p x, inds !! p = Some x ->
            S1 i inds !! p = Some (x =? i)%nat).
  { intros i p x Hx. unfold S1. now rewrite list_lookup_fmap, Hx. }
  assert (Hmask2 : forall i p x, inds !! p = Some x ->
            S2 i inds !! p = Some (negb (x =? i)%nat)).
  { intros i p x Hx. unfold S2. now rewrite list_lookup_fmap, Hx. }
  split; [|split; [|split]].
  - intros p Hp.
    destruct (lookup_lt_is_Some_2 inds p ltac:(lia)) as [x Hx].
    exists x. split; [exact (Forall_lookup_1 _ _ _ _ Hbelow Hx)|]. split.
    + apply elem_of_selected. rewrite (Hmask1 x p x Hx).
      now rewrite Nat.eqb_refl.
    + intros i' Hi'. apply elem_of_selected in Hi'.
      rewrite (Hmask1 i' p x Hx) in Hi'. injection Hi' as Hi'.
      symmetry. now apply Nat.eqb_eq.
  - intros i p Hp.
    destruct (lookup_lt_is_Some_2 inds p ltac:(lia)) as [x Hx].
    rewrite !elem_of_selected, (Hmask1 i p x Hx), (Hmask2 i p x Hx).
    destruct (x =? i)%nat; cbn; split; congruence.
  - intros Hle i Hi Hempty.
    assert (Hin : i ∈ inds).
    { rewrite Hperm. apply list_elem_of_lookup. exists i.
      apply labels_lookup_small; lia. }
    apply list_elem_of_lookup in Hin as [p Hp].
    assert (Hsel : p ∈ selected (S1 i inds)).
    { apply elem_of_selected. rewrite (Hmask1 i p i Hp).
      now rewrite Nat.eqb_refl. }
    rewrite Hempty in Hsel. now apply not_elem_of_nil in Hsel.
  - intros ->. apply elem_of_nil_inv. intros p Hp.
    apply elem_of_selected in Hp.
    assert (Hlt : (p < length inds)%nat).
    { apply lookup_lt_Some in Hp. unfold S2 in Hp.
      now rewrite length_map in Hp. }
    destruct (lookup_lt_is_Some_2 inds p Hlt) as [x Hx].
    rewrite (Hmask2 0%nat p x Hx) in Hp.
    pose proof (Forall_lookup_1 _ _ _ _ Hbelow Hx) as Hx1. cbn in Hx1.
    replace x with 0%nat in Hp by lia. discriminate.
Qed.
End HMCSplitFacts.

(** ** More on the no-U-turn move *)

Module NUTSMore.
Import Numeric Random NUTS NUTSOrbit.
Local Open Scope float_scope.

Section Tree.
Variable log_prob : vec -> float.
Variable grad_log_prob : vec -> vec.
Variable ln : float -> float.
Variable cov : HMC.metric.
Variable epsilon : float.
Variable delta_max : float.

Let build := build_tree log_prob grad_log_prob ln cov epsilon delta_max.
Let orb := orbit log_prob grad_log_prob cov epsilon.

Lemma orb_add v s k1 k2 : orb v (orb v s k1) k2 = orb v s (k2 + k1).
Proof. unfold orb, orbit. now rewrite Nat.iter_add. Qed.

Lemma build_on_orbit (j : nat) :
  forall state u v rs,
    on_orbit log_prob grad_log_prob cov epsilon j state v
      (build j state u v rs).
Proof.
  unfold on_orbit, build. fold orb.
  induction j as [|j IH]; intros state u v rs.
  - exists 1%nat, 1%nat. cbn [build_tree].
    unfold near_edge, far_edge. cbn.
    repeat split; try lia; try (now destruct (v <? 0));
      destruct (ln u <? _); lia.
  - cbn [build_tree].
    destruct (IH state u v rs)
      as (k1 & i1 & Hi1 & Hk1 & Hn1 & Hf1 & Hp1 & Hc1 & Hs1).
    set (t1 := build_tree _ _ _ _ _ _ j state u v rs) in *.
    assert (Hpow : (2 ^ S j = 2 ^ j + 2 ^ j)%nat) by (cbn; lia).
    destruct (s_pr t1) eqn:Hs; [|exists k1, i1; repeat split;
                                   try assumption; try lia; congruence].
    specialize (Hs1 eq_refl).
    destruct (v <? 0) eqn:Hv.
    + destruct (IH (state_m t1) u v (stream t1))
        as (k2 & i2 & Hi2 & Hk2 & Hn2 & Hf2 & Hp2 & Hc2 & Hs2).
      set (t2 := build_tree _ _ _ _ _ _ j (state_m t1) u v (stream t1)) in *.
      unfold near_edge, far_edge in Hn1, Hf1, Hn2, Hf2.
      rewrite Hv in Hn1, Hf1, Hn2, Hf2.
      rewrite Hf1, orb_add in Hf2, Hp2.
      destruct (0 <? n_pr t2)%Z;
        [destruct (rand (stream t2)) as [r rs2];
         destruct (r <? _)|];
        [exists (k2 + k1)%nat, (i2 + k1)%nat
        |exists (k2 + k1)%nat, i1
        |exists (k2 + k1)%nat, i1];
        unfold near_edge, far_edge; rewrite Hv; cbn;
        (repeat split; try assumption; try lia;
         intros Hfin; apply andb_true_iff in Hfin as [Hfin _];
         specialize (Hs2 Hfin); lia).
    + destruct (IH (state_p t1) u v (stream t1))
        as (k2 & i2 & Hi2 & Hk2 & Hn2 & Hf2 & Hp2 & Hc2 & Hs2).
      set (t2 := build_tree _ _ _ _ _ _ j (state_p t1) u v (stream t1)) in *.
      unfold near_edge, far_edge in Hn1, Hf1, Hn2, Hf2.
      rewrite Hv in Hn1, Hf1, Hn2, Hf2.
      rewrite Hf1, orb_add in Hf2, Hp2.
      destruct (0 <? n_pr t2)%Z;
        [destruct (rand (stream t2)) as [r rs2];
         destruct (r <? _)|];
        [exists (k2 + k1)%nat, (i2 + k1)%nat
        |exists (k2 + k1)%nat, i1
        |exists (k2 + k1)%nat, i1];
        unfold near_edge, far_edge; rewrite Hv; cbn;
        (repeat split; try assumption; try lia;
         intros Hfin; apply andb_true_iff in Hfin as [Hfin _];
         specialize (Hs2 Hfin); lia).
Qed.

(** X12: a subtree of depth [j] that [build_tree] returns lies on the
    leapfrog orbit of the state it was built from, in the direction [v]:
    it holds [k] consecutive leapfrog steps, at least one and at most
    [2 ^ j], and exactly [2 ^ j] when its flag [s] is set; the edge next
    to the start is the first step, the far edge the last, the proposal
    is one of the steps, and the count [n] is between zero and [k]. *)
Theorem build_tree_stays_on_leapfrog_orbit
    (j : nat) (state : State.t) (u v : float) (rs : RandomState) :
  on_orbit log_prob grad_log_prob cov epsilon j state v
    (build_tree log_prob grad_log_prob ln cov epsilon delta_max j state u v rs).
Proof. apply build_on_orbit. Qed.

Lemma build_stream (j : nat) :
  forall state u v rs,
    draws (stream (build j state u v rs)) = draws rs /\
    (pos rs <= pos (stream (build j state u v rs)))%nat /\
    (pos (stream (build j state u v rs)) + 1 <= pos rs + 2 ^ j)%nat.
Proof.
  unfold build.
  induction j as [|j IH]; intros state u v rs.
  - cbn. repeat split; lia.
  - cbn [build_tree].
    destruct (IH state u v rs) as (Hd1 & Hl1 & Hu1).
    set (t1 := build_tree _ _ _ _ _ _ j state u v rs) in *.
    assert (Hpow : (2 ^ S j = 2 ^ j + 2 ^ j)%nat) by (cbn; lia).
    destruct (s_pr t1); [|repeat split; try assumption; lia].
    destruct (v <? 0).
    + destruct (IH (state_m t1) u v (stream t1)) as (Hd2 & Hl2 & Hu2).
      set (t2 := build_tree _ _ _ _ _ _ j (state_m t1) u v (stream t1)) in *.
      destruct (0 <? n_pr t2)%Z;
        [destruct (rand (stream t2)) as [r rs2] eqn:Hr;
         injection Hr as _ <-; destruct (r <? _)|];
        cbn; (repeat split; [congruence | lia | lia]).
    + destruct (IH (state_p t1) u v (stream t1)) as (Hd2 & Hl2 & Hu2).
      set (t2 := build_tree _ _ _ _ _ _ j (state_p t1) u v (stream t1)) in *.
      destruct (0 <? n_pr t2)%Z;
        [destruct (rand (stream t2)) as [r rs2] eqn:Hr;
         injection Hr as _ <-; destruct (r <? _)|];
        cbn; (repeat split; [congruence | lia | lia]).
Qed.

(** X13: [build_tree] at depth [j] reads the random stream in order and
    takes at most [2 ^ j - 1] uniform draws from it, one for each pair of
    subtrees it merges, and none at depth zero. *)
Theorem build_tree_draws
    (j : nat) (state : State.t) (u v : float) (rs : RandomState) :
  let t :=
    build_tree log_prob grad_log_prob ln cov epsilon delta_max j state u v rs in
  draws (stream t) = draws rs /\
  (pos rs <= pos (stream t))%nat /\
  (pos (stream t) + 1 <= pos rs + 2 ^ j)%nat.
Proof. apply build_stream. Qed.

(** A turn of the loop never lowers the count, and leaves the current
    state alone or replaces it by a state marked accepted. *)
Lemma doubling_keeps (j : nat) (u : float) (t : trajectory) :
  let t' := fst (doubling log_prob grad_log_prob ln cov epsilon delta_max
                   j u t) in
  (n t <= n t')%Z /\
  (state t' = state t \/ State.accepted (state t') = true).
Proof.
  unfold doubling. destruct (rand (random t)) as [r0 rs0].
  set (v := direction r0).
  assert (Hsub : NUTS.extend log_prob grad_log_prob ln cov epsilon delta_max
                   j u v t rs0
                 = build j (state_minus t) u v rs0).
  { unfold NUTS.extend, build. now destruct (v <? 0). }
  rewrite Hsub.
  destruct (build_on_orbit j (state_minus t) u v rs0)
    as (k & i & _ & _ & _ & _ & _ & Hc & _).
  set (sub := build j (state_minus t) u v rs0) in *.
  destruct (s_pr sub);
    [destruct (rand (stream sub)) as [r rs1]; destruct (r <? _)|];
    cbn; split; try lia; auto.
Qed.

Lemma doublings_keep (fuel : nat) :
  forall (j : nat) (u : float) (t : trajectory),
    let r := doublings log_prob grad_log_prob ln cov epsilon delta_max
               fuel j u t in
    (j <= snd r)%nat /\ (snd r < j + fuel \/ fuel = 0)%nat /\
    (n t <= n (fst r))%Z /\
    (state (fst r) = state t \/ State.accepted (state (fst r)) = true).
Proof.
  induction fuel as [|fuel IH]; intros j u t.
  - cbn. repeat split; auto; lia.
  - cbn [doublings].
    pose proof (doubling_keeps j u t) as [Hn Hs]. cbv zeta in Hn, Hs.
    destruct (doubling log_prob grad_log_prob ln cov epsilon delta_max j u t)
      as [t' stop]. cbn [fst] in Hn, Hs.
    destruct stop; [cbn; repeat split; auto; lia|].
    destruct fuel as [|fuel]; [cbn; repeat split; auto; lia|].
    specialize (IH (S j) u t'). cbv zeta in IH.
    destruct (doublings _ _ _ _ _ _ (S fuel) (S j) u t') as [t'' j''].
    cbn [fst snd] in *. destruct IH as (Hj & Hf & Hn' & Hs').
    repeat split; try lia.
    destruct Hs' as [-> | Hacc]; [exact Hs | now right].
Qed.
End Tree.

(** X14: with a depth limit of zero [_nuts_wrapper.__call__] raises; with
    a positive limit it returns a state whose log-probability is the
    model's at its coordinates and whose recorded number of doublings is
    below the limit. *)
Theorem nuts_steps_below_max_depth
    (log_prob : vec -> float) (grad_log_prob : vec -> vec)
    (ln exp : float -> float) (cov : HMC.metric)
    (epsilon delta_max : float) (depth : nat)
    (start : State.t) (current_p : vec) (rs : RandomState) :
  __call__ log_prob grad_log_prob ln exp cov epsilon 0 delta_max
    start current_p rs = Error NameError /\
  exists (st : State.t) (rs' : RandomState) (j : nat),
    __call__ log_prob grad_log_prob ln exp cov epsilon (S depth) delta_max
      start current_p rs
    = Ok (st, neg_infinity, rs') /\
    State._nuts_steps st = Some j /\ (j <= depth)%nat /\
    State.log_probability st = log_prob (State.coords st).
Proof.
  split.
  - unfold __call__. now destruct (uniform _ _ rs).
  - unfold __call__. destruct (uniform _ _ rs) as [u rs1].
    match goal with
    | |- context [doublings _ _ _ _ _ _ (S depth) 0 u ?t0] =>
        pose proof (doublings_keep log_prob grad_log_prob ln cov epsilon
                      delta_max (S depth) 0 u t0) as (Hj & Hf & _ & _);
        cbv zeta in Hj, Hf;
        destruct (doublings log_prob grad_log_prob ln cov epsilon delta_max
                    (S depth) 0 u t0) as [t j]
    end.
    cbn [fst snd] in *.
    eexists _, _, j. split; [reflexivity|]. cbn. repeat split. lia.
Qed.

(** X15: the state [_nuts_wrapper.__call__] returns is marked accepted, or
    else it is the start state: at the start coordinates, with the
    momentum that was passed in and with whatever [accepted] flag the
    start state carried, which the move does not reset. *)
Theorem nuts_moves_only_when_accepted
    (log_prob : vec -> float) (grad_log_prob : vec -> vec)
    (ln exp : float -> float) (cov : HMC.metric)
    (epsilon delta_max : float) (depth : nat)
    (start : State.t) (current_p : vec) (rs : RandomState) :
  exists (st : State.t) (rs' : RandomState),
    __call__ log_prob grad_log_prob ln exp cov epsilon (S depth) delta_max
      start current_p rs
    = Ok (st, neg_infinity, rs') /\
    (State.accepted st = true \/
     (State.coords st = State.coords start /\
      State._momentum st = current_p /\
      State.accepted st = State.accepted start)).
Proof.
  unfold __call__. destruct (uniform _ _ rs) as [u rs1].
  match goal with
  | |- context [doublings _ _ _ _ _ _ (S depth) 0 u ?t0] =>
      pose proof (doublings_keep log_prob grad_log_prob ln cov epsilon
                    delta_max (S depth) 0 u t0) as (_ & _ & _ & Hs);
      cbv zeta in Hs;
      destruct (doublings log_prob grad_log_prob ln cov epsilon delta_max
                  (S depth) 0 u t0) as [t j]
  end.
  cbn [fst snd state] in Hs.
  eexists _, _. split; [reflexivity|]. cbn.
  destruct Hs as [-> | Hacc]; [right; cbn; auto | now left].
Qed.
End NUTSMore.

(** ** More on the Metropolis-Hastings move *)

Module MHMore.
Import Numeric Random MH.
Local Open Scope float_scope.

Section Move.
Context {E : Type} `{EnsembleLike E}.
Variable exp : float -> float.
Variable ndim : option nat.
Variable proposal : RandomState -> matrix -> matrix * vec * RandomState.

(** X16: whatever the ensemble, the proposal and the stream,
    [MHMove.update] makes no call on the ensemble when the dimensions
    disagree, and otherwise one [propose]; [update] is called at most
    once, after [propose], and only when [propose] returned and every
    state found its walker and its log-ratio: an exception before that
    point leaves the ensemble uncommitted. *)
Theorem mh_update_calls (ensemble : E) (rs : RandomState) :
  let out := update exp ndim proposal ensemble rs in
  let q := fst (fst (proposal rs (ens_coords ensemble))) in
  (dimension_mismatch ndim (ens_ndim ensemble) = true /\
   out = ([], Error (ValueError "Dimension mismatch in proposal"))) \/
  (dimension_mismatch ndim (ens_ndim ensemble) = false /\
   exists err, out = ([Propose q], Error err)) \/
  (dimension_mismatch ndim (ens_ndim ensemble) = false /\
   exists proposed states rs',
     ens_propose ensemble q = Ok proposed /\
     length states = length proposed /\
     out = ([Propose q; Update states],
            do ensemble <- ens_update ensemble states; Ok (ensemble, rs'))).
Proof.
  cbv zeta. unfold update.
  destruct (dimension_mismatch ndim (ens_ndim ensemble)); [now left|].
  right.
  destruct (proposal rs (ens_coords ensemble)) as [[q factor] rs1].
  cbn [fst]. destruct (ens_propose ensemble q) as [proposed|err] eqn:Hp;
    [|left; eauto].
  destruct (accept_loop exp 0 proposed (ens_walkers ensemble) factor rs1)
    as [[states rs2]|err] eqn:Hloop; [|left; eauto].
  right. split; [reflexivity|]. exists proposed, states, rs2.
  repeat split.
  clear Hp. revert Hloop. generalize 0%nat. revert states rs1 rs2.
  induction proposed as [|s proposed IH]; intros states rs1 rs2 i Hloop.
  - injection Hloop as <- _. reflexivity.
  - cbn [accept_loop] in Hloop.
    destruct (ens_walkers ensemble !! i); [|discriminate].
    destruct (factor !! i); [|discriminate].
    destruct (accepts exp _ rs1) as [yes rs1'].
    destruct (accept_loop exp (S i) proposed (ens_walkers ensemble) factor rs1')
      as [[rest rs3]|] eqn:Hrest; [|discriminate].
    cbn in Hloop. injection Hloop as <- _. cbn. f_equal. eauto.
Qed.

Lemma accepts_stream (lnpdiff : float) (rs : RandomState) :
  draws (snd (accepts exp lnpdiff rs)) = draws rs /\
  (pos rs <= pos (snd (accepts exp lnpdiff rs)) <= pos rs + 1)%nat.
Proof.
  unfold accepts. destruct (0 <? lnpdiff); cbn; split; auto; lia.
Qed.

(** X17: when the loop of [MHMove.update] over the proposed states
    returns, it hands on the same states in the same order with their
    coordinates and log-probabilities untouched; it only ever sets an
    [accepted] flag, never clears one; and it has read the random stream
    in order, taking at most one draw per state. *)
Theorem mh_loop_only_sets_flags
    (states walkers : list State.t) (factor : vec) (i : nat)
    (rs rs' : RandomState) (states' : list State.t) :
  accept_loop exp i states walkers factor rs = Ok (states', rs') ->
  Forall2 (fun s s' =>
             State.coords s' = State.coords s /\
             State.log_probability s' = State.log_probability s /\
             (State.accepted s = true -> State.accepted s' = true))
          states states' /\
  draws rs' = draws rs /\
  (pos rs <= pos rs' <= pos rs + length states)%nat.
Proof.
  revert i rs rs' states'.
  induction states as [|s states IH]; intros i rs rs' states' Hloop.
  - injection Hloop as <- <-. cbn. repeat split; [constructor | lia | lia].
  - cbn [accept_loop] in Hloop.
    destruct (walkers !! i) as [w|]; [|discriminate].
    destruct (factor !! i) as [f|]; [|discriminate].
    pose proof (accepts_stream
                  (State.log_probability s - State.log_probability w + f) rs)
      as (Hd & Hp).
    destruct (accepts exp _ rs) as [yes rs1]. cbn [snd] in Hd, Hp.
    destruct (accept_loop exp (S i) states walkers factor rs1)
      as [[rest rs2]|] eqn:Hrest; [|discriminate].
    cbn in Hloop. injection Hloop as <- <-.
    destruct (IH _ _ _ _ Hrest) as (Hall & Hd' & Hp').
    cbn [length]. repeat split; try congruence; try lia.
    constructor; [|exact Hall]. destruct yes; cbn; auto.
Qed.

Lemma accept_loop_short (states : list State.t) :
  forall (i : nat) (walkers : list State.t) (factor : vec) (rs : RandomState),
    (i <= length walkers)%nat -> (i <= length factor)%nat ->
    (length walkers < i + length states \/
     length factor < i + length states)%nat ->
    accept_loop exp i states walkers factor rs = Error IndexError.
Proof.
  induction states as [|s states IH];
    intros i walkers factor rs Hiw Hif Hshort.
  - cbn in Hshort. lia.
  - cbn [accept_loop].
    destruct (walkers !! i) as [w|] eqn:Hw; [|reflexivity].
    destruct (factor !! i) as [f|] eqn:Hf; [|reflexivity].
    apply lookup_lt_Some in Hw, Hf.
    destruct (accepts exp _ rs) as [yes rs1].
    rewrite (IH (S i) walkers factor rs1); [reflexivity | lia | lia |].
    cbn [length] in Hshort. lia.
Qed.

(** X18: when the proposal returns fewer log-ratios than [propose] returns
    states, or the ensemble holds fewer walkers, [MHMove.update] raises
    [IndexError] after its call of [propose], and [update] is not called,
    whatever was decided for the states before the missing one. *)
Theorem mh_update_short_inputs (ensemble : E) (rs : RandomState)
    (states : list State.t) :
  let drawn := proposal rs (ens_coords ensemble) in
  dimension_mismatch ndim (ens_ndim ensemble) = false ->
  ens_propose ensemble (fst (fst drawn)) = Ok states ->
  (length (ens_walkers ensemble) < length states \/
   length (snd (fst drawn)) < length states)%nat ->
  update exp ndim proposal ensemble rs
  = ([Propose (fst (fst drawn))], Error IndexError).
Proof.
  intros drawn Hdim Hprop Hshort. unfold update. rewrite Hdim.
  fold drawn. destruct drawn as [[q factor] rs1]. cbn [fst snd] in *.
  rewrite Hprop. rewrite accept_loop_short; [reflexivity | lia | lia |].
  cbn [Nat.add]. exact Hshort.
Qed.
End Move.
End MHMore.

(** ** More on the in-memory backend *)

Module DefaultBackendMore.
Import DefaultBackend DefaultBackendOps.
Local Open Scope Z_scope.

(** X19: when [check_dimensions] returns, the backend has the walker and
    dimension counts of the ensemble; from then on it accepts exactly the
    ensembles with those counts, and accepting one changes nothing. *)
Theorem check_dimensions_latches
    (ens : Ensemble.t) (b : DefaultBackend.t) :
  snd (check_dimensions ens b) = None ->
  let b' := fst (check_dimensions ens b) in
  nwalkers b' = Some (Ensemble.nwalkers ens) /\
  ndim b' = Some (Ensemble.ndim ens) /\
  forall ens2,
    (snd (check_dimensions ens2 b') = None <->
     Ensemble.nwalkers ens2 = Ensemble.nwalkers ens /\
     Ensemble.ndim ens2 = Ensemble.ndim ens) /\
    (snd (check_dimensions ens2 b') = None ->
     fst (check_dimensions ens2 b') = b').
Proof.
  unfold check_dimensions.
  set (nw := match nwalkers b with
             | None => Ensemble.nwalkers ens | Some k => k end).
  set (nd := match ndim b with
             | None => Ensemble.ndim ens | Some d => d end).
  destruct (Nat.eqb_spec nw (Ensemble.nwalkers ens)) as [Hw|Hw];
    [|discriminate].
  destruct (Nat.eqb_spec nd (Ensemble.ndim ens)) as [Hd|Hd];
    [|discriminate].
  intros _. cbn. rewrite Hw, Hd. repeat split.
  - destruct (Nat.eqb_spec (Ensemble.nwalkers ens) (Ensemble.nwalkers ens2));
      [congruence | discriminate].
  - destruct (Nat.eqb_spec (Ensemble.nwalkers ens) (Ensemble.nwalkers ens2));
      [|discriminate].
    destruct (Nat.eqb_spec (Ensemble.ndim ens) (Ensemble.ndim ens2));
      [congruence | discriminate].
  - intros [-> ->]. now rewrite !Nat.eqb_refl.
  - destruct (negb _ || negb _); [discriminate | reflexivity].
Qed.

Lemma upto_nonneg {A : Type} (a : list A) (z : Z) :
  0 <= z -> upto a z = take (Z.to_nat z) a.
Proof. intros Hz. unfold upto. now destruct (Z.ltb_spec z 0); [lia|]. Qed.

Lemma np_resize_prefix {A : Type} (zero : A) (a : list A) (l m : nat) :
  (m <= length a)%nat -> (m <= l)%nat ->
  take m (np_resize zero a l) = take m a.
Proof.
  intros Ha Hl. unfold np_resize. destruct a as [|x a].
  - cbn in Ha. replace m with 0%nat by lia. reflexivity.
  - destruct l as [|l]; [replace m with 0%nat by lia; reflexivity|].
    cbn [replicate concat]. rewrite take_take.
    replace (m `min` S l)%nat with m by lia.
    now rewrite take_app_le.
Qed.

Lemma committed_prefix (b : DefaultBackend.t) c lp ll :
  _coords b = Some c -> _lnprior b = Some lp -> _lnlike b = Some ll ->
  0 <= niter b ->
  committed b = (take (Z.to_nat (niter b)) c,
                 take (Z.to_nat (niter b)) lp,
                 take (Z.to_nat (niter b)) ll).
Proof.
  intros Hc Hp Hl Hn. unfold committed, coords, lnprior, lnlike.
  rewrite Hc, Hp, Hl. cbn. now rewrite !upto_nonneg.
Qed.

Lemma Forall_np_resize {A : Type} (P : A -> Prop) (zero : A)
    (a : list A) (l : nat) :
  P zero -> Forall P a -> Forall P (np_resize zero a l).
Proof.
  intros Hz Ha. unfold np_resize. destruct a as [|x a].
  - now apply Forall_replicate.
  - apply Forall_take, Forall_concat. now apply Forall_replicate.
Qed.

Lemma rows2_np_resize (size : Z) (k : nat) (a : matrix) (l : nat) :
  rows2 size k a -> rows2 (Z.of_nat l) k (np_resize (Numeric.zeros k) a l).
Proof.
  intros [_ Ha]. split; [now rewrite BackendFacts.length_np_resize|].
  apply Forall_np_resize; [apply length_replicate | exact Ha].
Qed.

Lemma rows3_np_resize (size : Z) (k d : nat) (c : list matrix) (l : nat) :
  rows3 size k d c ->
  rows3 (Z.of_nat l) k d (np_resize (replicate k (Numeric.zeros d)) c l).
Proof.
  intros [_ Hc]. split; [now rewrite BackendFacts.length_np_resize|].
  apply Forall_np_resize; [|exact Hc].
  split; [apply length_replicate|].
  apply Forall_replicate, length_replicate.
Qed.

Section Extend.
Variable uninit : float.

(** What [extend] does to a consistent backend. *)
Lemma extend_consistent (n : Z) (b : DefaultBackend.t) :
  consistent b -> 0 <= n ->
  exists b',
    extend uninit n b = Ok b' /\
    consistent b' /\
    nwalkers b' = nwalkers b /\ ndim b' = ndim b /\
    niter b' = niter b /\
    size b' = niter b + n /\
    Z.of_nat (capacity b') = niter b + n /\
    committed b' = committed b.
Proof.
  intros (k & d & Hk & Hd & Hn & Harr) Hn0.
  unfold extend. rewrite Hk, Hd.
  destruct (Z.ltb_spec (niter b + n) 0); [lia|].
  destruct (_coords b) as [c|] eqn:Hc;
    destruct (_lnprior b) as [lp|] eqn:Hp;
    destruct (_lnlike b) as [ll|] eqn:Hl; try contradiction.
  - destruct Harr as (Rc & Rp & Rl).
    eexists. split; [reflexivity|]. cbn.
    split; [|do 4 (split; [reflexivity|]); split].
    + exists k, d. cbn.
      split; [reflexivity|]. split; [reflexivity|]. split; [lia|].
      rewrite <- (Z2Nat.id (niter b + n)) at 1 3 5 by lia.
      split; [|split].
      * eapply rows3_np_resize, Rc.
      * eapply rows2_np_resize, Rp.
      * eapply rows2_np_resize, Rl.
    + unfold capacity. cbn. rewrite BackendFacts.length_np_resize. lia.
    + destruct Rc as [Lc _], Rp as [Lp _], Rl as [Ll _].
      erewrite committed_prefix; [| reflexivity ..| cbn; lia].
      erewrite (committed_prefix b); [| eassumption ..| lia].
      cbn [niter]. rewrite !np_resize_prefix by lia. reflexivity.
  - assert (niter b = 0) by lia.
    eexists. split; [reflexivity|]. cbn.
    split; [|do 4 (split; [reflexivity|]); split].
    + exists k, d. cbn.
      split; [reflexivity|]. split; [reflexivity|]. split; [lia|].
      unfold rows3, rows2. rewrite !length_replicate.
      repeat split; try lia;
        repeat (apply Forall_replicate; try split);
        apply length_replicate.
    + unfold capacity. cbn. rewrite length_replicate. lia.
    + unfold committed, coords, lnprior, lnlike. cbn.
      rewrite Hc, Hp, Hl. cbn. rewrite !upto_nonneg by lia.
      replace (Z.to_nat (niter b)) with 0%nat by lia. reflexivity.
Qed.

(** X20: on a consistent in-memory backend [extend(n)] with [n >= 0]
    returns; it sets the size and the room in the arrays to [niter + n],
    keeps [niter], keeps every committed row of the three arrays, and
    leaves the backend consistent. *)
Theorem default_extend_keeps_committed_rows
    (n : Z) (b : DefaultBackend.t) :
  consistent b -> 0 <= n ->
  exists b',
    extend uninit n b = Ok b' /\
    consistent b' /\
    niter b' = niter b /\
    size b' = niter b + n /\
    Z.of_nat (capacity b') = niter b + n /\
    committed b' = committed b.
Proof.
  intros Hb Hn.
  destruct (extend_consistent n b Hb Hn)
    as (b' & He & Hc & _ & _ & Hi & Hs & Hcap & Hk).
  exists b'. auto 10.
Qed.

Lemma take_S_insert {A : Type} (l : list A) (i : nat) (x : A) :
  (i < length l)%nat -> take (S i) (<[i := x]> l) = take i l ++ [x].
Proof.
  intros Hi. rewrite (take_S_r _ i x) by now apply list_lookup_insert_eq.
  now rewrite take_insert_ge.
Qed.

Lemma store_Some {A : Type} (l : list A) (i : Z) (row : A) :
  0 <= i < Z.of_nat (length l) ->
  store (Some l) i row = Ok (Some (<[Z.to_nat i := row]> l)).
Proof.
  intros Hi. unfold store. destruct (Z.ltb_spec i 0); [lia|].
  unfold setitem. destruct (Nat.ltb_spec (Z.to_nat i) (length l)); [|lia].
  reflexivity.
Qed.

End Extend.
End DefaultBackendMore.

(** ** The further properties at concrete inputs *)

Module MoreWitnesses.
Import Numeric Random Examples MoreExamples.
Local Open Scope float_scope.

(** Two normal walkers make an ensemble of two rows of one coordinate,
    and an array of shape [(0, 3)] one of dimension three without
    walkers. *)
Lemma init_shapes_witness :
  (exists e,
      Ensemble.__init__ (normal_walker 1 infinity) (fun _ => nan)
        (Ensemble.Rows [[0.5]; [-0.5]]) = Ok e /\
      Ensemble.nwalkers e = 2%nat /\ Ensemble.ndim e = 1%nat /\
      Ensemble._coords e = [[0.5]; [-0.5]] /\
      length (Ensemble.walkers e) = Ensemble.nwalkers e /\
      Ensemble.acceptance e = [true; true]) /\
  (exists e,
      Ensemble.__init__ (normal_walker 1 infinity) (fun _ => nan)
        (Ensemble.NoRows 3) = Ok e /\
      Ensemble.nwalkers e = 0%nat /\ Ensemble.ndim e = 3%nat /\
      Ensemble.walkers e = []).
Proof.
  destruct (EnsembleMore.init_shapes (normal_walker 1 infinity)
              (fun _ => nan)) as (H1 & H2 & _).
  split.
  - specialize (H1 (Ensemble.Rows [[0.5]; [-0.5]])).
    destruct (Ensemble.__init__ _ _ _) as [e|err] eqn:He;
      [|vm_compute in He; discriminate He].
    exists e. destruct (H1 e eq_refl) as (Hs & Hc & _ & _ & Hw & _ & _ & Ha).
    injection Hs as Hn Hd. rewrite <- Hn, <- Hd.
    split; [reflexivity|]. split; [reflexivity|]. split; [reflexivity|].
    split; [exact Hc|]. split; [now rewrite Hn|].
    rewrite Ha, <- Hn. reflexivity.
  - eexists. split; [apply H2|]. repeat split.
Defined.

(** [update] on the ensemble in which a move has installed a feasible
    walker. *)
Lemma update_stores_walkers_and_is_idempotent_witness :
  exists e',
    Ensemble.update moved_ensemble = Ok e' /\
    (Ensemble._coords e'
     = map Walker.coords (Ensemble.walkers moved_ensemble) /\
     Ensemble._lnprior e'
     = map Walker.lnprior (Ensemble.walkers moved_ensemble) /\
     Ensemble._lnlike e'
     = map Walker.lnlike (Ensemble.walkers moved_ensemble) /\
     Ensemble.wf e' /\
     Ensemble.update e' = Ok e').
Proof.
  eexists. split; [vm_compute; reflexivity|].
  apply (EnsembleMore.update_stores_walkers_and_is_idempotent
           moved_ensemble).
  - unfold Ensemble.wf. repeat split; repeat constructor.
  - vm_compute. reflexivity.
Defined.

(** The integrator asked for no steps on the standard normal. *)
Lemma integrate_without_steps_witness :
  HMC.integrate gauss_log_prob gauss_grad (HMC._hmc_vector (HMC.Zero_d 1))
    0.5 0 hmc_flat_start [1]
  = (HMC.get_state gauss_log_prob gauss_grad
       (HMC.State.coords hmc_flat_start),
     vneg (vadd (vadd [1]
                   (smul (0.5 * 0.5)
                      (HMC.initial_gradient gauss_grad hmc_flat_start)))
             (smul (0.5 * 0.5)
                (gauss_grad (HMC.State.coords hmc_flat_start))))).
Proof.
  apply (HMCMore.integrate_without_steps gauss_log_prob gauss_grad
           (HMC._hmc_vector (HMC.Zero_d 1)) 0.5 0 hmc_flat_start [1]).
  lia.
Defined.

(** One step on the flat density from the same point, by either
    wrapper. *)
Lemma nuts_leapfrog_is_one_hmc_step_witness :
  let stepped :=
    NUTS.leapfrog flat_log_prob flat_grad (HMC._hmc_vector (HMC.Zero_d 1))
      nuts_flat_start 0.5 in
  let integrated :=
    HMC.integrate flat_log_prob flat_grad (HMC._hmc_vector (HMC.Zero_d 1))
      0.5 1 hmc_flat_start (NUTS.State._momentum nuts_flat_start) in
  HMC.State.coords (fst integrated) = NUTS.State.coords stepped /\
  HMC.State.lnprob (fst integrated) = NUTS.State.log_probability stepped /\
  HMC.State.grad_lnprob (fst integrated)
  = Some (NUTS.State.grad_log_probability stepped) /\
  snd integrated = vneg (NUTS.State._momentum stepped).
Proof.
  apply (HMCMore.nuts_leapfrog_is_one_hmc_step flat_log_prob flat_grad
           (HMC._hmc_vector (HMC.Zero_d 1)) 0.5 nuts_flat_start
           hmc_flat_start); reflexivity.
Defined.

Lemma shuffled_labels_perm :
  Permutation shuffled_labels (HMCSplit.labels 5 2).
Proof.
  change (Permutation [1; 0; 0; 0; 1] [0; 1; 0; 1; 0])%nat.
  etransitivity; [apply perm_swap|].
  do 3 apply perm_skip. apply perm_swap.
Qed.

(** Five walkers in two splits. *)
Lemma splits_partition_the_walkers_witness :
  (forall p, (p < 5)%nat ->
     exists i, (i < 2)%nat /\
               p ∈ HMCSplit.selected (HMCSplit.S1 i shuffled_labels) /\
               forall i',
                 p ∈ HMCSplit.selected (HMCSplit.S1 i' shuffled_labels) ->
                 i' = i) /\
  (forall i p, (p < 5)%nat ->
     p ∈ HMCSplit.selected (HMCSplit.S2 i shuffled_labels) <->
     ~ p ∈ HMCSplit.selected (HMCSplit.S1 i shuffled_labels)) /\
  ((2 <= 5)%nat ->
   forall i, (i < 2)%nat ->
     HMCSplit.selected (HMCSplit.S1 i shuffled_labels) <> []) /\
  (2%nat = 1%nat ->
   HMCSplit.selected (HMCSplit.S2 0%nat shuffled_labels) = []).
Proof.
  apply (HMCSplitFacts.splits_partition_the_walkers 5 2 shuffled_labels).
  - lia.
  - exact shuffled_labels_perm.
Defined.

(** The acceptance loop over two candidates for two normal walkers. *)
Lemma mh_loop_only_sets_flags_witness :
  exists states' rs',
    MH.accept_loop exp 0%nat (map mh_state [[1.5]; [0.25]]) mh_walkers
      [0; 0]
      mh_stream = Ok (states', rs') /\
    (Forall2 (fun s s' =>
                MH.State.coords s' = MH.State.coords s /\
                MH.State.log_probability s' = MH.State.log_probability s /\
                (MH.State.accepted s = true -> MH.State.accepted s' = true))
             (map mh_state [[1.5]; [0.25]]) states' /\
     draws rs' = draws mh_stream /\
     (pos mh_stream <= pos rs'
      <= pos mh_stream
         + length (map mh_state [[1.5%float]; [0.25%float]]))%nat).
Proof.
  eexists _, _. split; [vm_compute; reflexivity|].
  apply (MHMore.mh_loop_only_sets_flags exp
           (map mh_state [[1.5]; [0.25]]) mh_walkers [0; 0] 0%nat mh_stream).
  vm_compute. reflexivity.
Defined.

(** The move with a proposal that returns no log-ratios. *)
Lemma mh_update_short_inputs_witness :
  let drawn := short_proposal mh_stream (MH.ens_coords mh_walkers) in
  MH.update exp (Some 1%nat) short_proposal mh_walkers mh_stream
  = ([MH.Propose (fst (fst drawn))], Error IndexError).
Proof.
  intros drawn.
  apply (MHMore.mh_update_short_inputs exp (Some 1%nat) short_proposal
           mh_walkers mh_stream (map mh_state [[1]; [0]])).
  - reflexivity.
  - vm_compute. reflexivity.
  - right. vm_compute. lia.
Defined.

(** A backend that has seen no ensemble takes the dimensions of the
    first. *)
Lemma check_dimensions_latches_witness :
  let b' :=
    fst (DefaultBackendOps.check_dimensions moved_ensemble
           DefaultBackend.reset) in
  DefaultBackend.nwalkers b' = Some (Ensemble.nwalkers moved_ensemble) /\
  DefaultBackend.ndim b' = Some (Ensemble.ndim moved_ensemble) /\
  forall ens2,
    (snd (DefaultBackendOps.check_dimensions ens2 b') = None <->
     Ensemble.nwalkers ens2 = Ensemble.nwalkers moved_ensemble /\
     Ensemble.ndim ens2 = Ensemble.ndim moved_ensemble) /\
    (snd (DefaultBackendOps.check_dimensions ens2 b') = None ->
     fst (DefaultBackendOps.check_dimensions ens2 b') = b').
Proof.
  apply (DefaultBackendMore.check_dimensions_latches moved_ensemble
           DefaultBackend.reset).
  reflexivity.
Defined.

Lemma default_one_recorded_consistent :
  DefaultBackendOps.consistent default_one_recorded.
Proof.
  exists 2%nat, 1%nat. cbn.
  unfold DefaultBackendOps.rows3, DefaultBackendOps.rows2. cbn.
  repeat split; try lia; repeat constructor.
Qed.

Lemma default_full_consistent :
  DefaultBackendOps.consistent default_full.
Proof.
  exists 2%nat, 1%nat. cbn.
  unfold DefaultBackendOps.rows3, DefaultBackendOps.rows2. cbn.
  repeat split; try lia; repeat constructor.
Qed.

Lemma moved_ensemble_fits :
  DefaultBackendOps.fits moved_ensemble default_full.
Proof.
  exists 2%nat, 1%nat. cbn. repeat split; repeat constructor.
Qed.

(** Room for three more iterations on a backend that holds one. *)
Lemma default_extend_keeps_committed_rows_witness :
  exists b',
    DefaultBackend.extend 0 3 default_one_recorded = Ok b' /\
    DefaultBackendOps.consistent b' /\
    DefaultBackend.niter b' = DefaultBackend.niter default_one_recorded /\
    DefaultBackend.size b'
    = (DefaultBackend.niter default_one_recorded + 3)%Z /\
    Z.of_nat (DefaultBackend.capacity b')
    = (DefaultBackend.niter default_one_recorded + 3)%Z /\
    DefaultBackendOps.committed b'
    = DefaultBackendOps.committed default_one_recorded.
Proof.
  apply (DefaultBackendMore.default_extend_keeps_committed_rows 0 3
           default_one_recorded).
  - exact default_one_recorded_consistent.
  - lia.
Defined.

End MoreWitnesses.
